(** * MTG Monte Carlo Analyzer: a shallow embedding of the worker boundary,
      the deck-slot persistence helpers, the chart-data preparation and the
      parts of the simulation engine the specification describes. *)

From Stdlib Require Import ZArith QArith Qround Qminmax List Lia Ascii.
From stdpp Require Import gmap strings list fin_maps fin_sets.

Set Default Proof Using "Type".
Local Open Scope string_scope.

(** ** JavaScript values crossing the worker boundary *)

Module Js.

(** The values a configuration object holds.  Arrays and Sets of card names
    are modelled with their elements; the plain objects a configuration
    holds besides (override maps, custom mulligan rules), which cannot be
    iterated, are kept by identity. *)
Inductive value : Type :=
| VUndefined
| VNull
| VBool (b : bool)
| VNum (n : Z)
| VStr (s : string)
| VArr (l : list string)
| VSet (s : gset string)
| VObj (ref : positive).

(** A JS object used as a record of named fields. *)
Abbreviation object := (gmap string value).

(** [obj[f]]: reading an absent property yields [undefined]. *)
Definition get (o : object) (f : string) : value :=
  default VUndefined (o !! f).

(** [x ?? d] *)
Definition nullish (x d : value) : value :=
  match x with
  | VUndefined | VNull => d
  | _ => x
  end.

(** The iteration protocol used by spread ([[...x]]) and by [new Set(x)]:
    [None] stands for the TypeError raised on a non-iterable. *)
Definition iterate (x : value) : option (list string) :=
  match x with
  | VArr l => Some l
  | VSet s => Some (elements s)
  | VStr s => Some ((fun c => String c EmptyString) <$> String.list_ascii_of_string s)
  | _ => None
  end.

(** [[...x]] *)
Definition spread (x : value) : option value := VArr <$> iterate x.

(** [new Set(x)] *)
Definition newSet (x : value) : option value :=
  (fun l => VSet (list_to_set l)) <$> iterate x.

(** The shape shared by the two per-field loops at the worker boundary: a
    conversion of [config[f] ?? []] written back under the field's name. *)
Definition fieldStep (conv : value -> option value) (config : object)
  (acc : option object) (f : string) : option object :=
  out ← acc;
  a ← conv (nullish (get config f) (VArr []));
  Some (<[f := a]> out).

(** The Set a value is, if it is one. *)
Definition setOf (v : value) : gset string :=
  match v with VSet s => s | _ => ∅ end.

End Js.

Import Js.

(** ** App.jsx: serialising the configuration for [postMessage] *)

Module App.

Definition SET_CONFIG_FIELDS : list string :=
  [ "selectedKeyCards"; "disabledExploration"; "disabledRampSpells";
    "disabledArtifacts"; "disabledCreatures"; "disabledRituals";
    "disabledCostReducers"; "disabledDrawSpells"; "disabledTreasures" ].

(** One round of the [forEach]: [out[f] = [...(config[f] ?? [])]]. *)
Definition serializeField (config : object) (acc : option object) (f : string)
  : option object :=
  out ← acc;
  a ← spread (nullish (get config f) (VArr []));
  Some (<[f := a]> out).

(** A configuration as [buildSimConfig] makes it: each of the nine fields
    holds a Set (or is not there at all). *)
Definition set_valued (config : object) : bool :=
  forallb (fun f => match config !! f with
                    | None | Some (VSet _) => true
                    | Some _ => false
                    end) SET_CONFIG_FIELDS.

(** [serializeConfig]: [out] starts as a copy of [config]. *)
Definition serializeConfig (config : object) : option object :=
  foldl (serializeField config) (Some config) SET_CONFIG_FIELDS.

End App.

(** ** simulationWorker.js *)

Module Worker.

Definition SET_FIELDS : list string :=
  [ "selectedKeyCards"; "disabledExploration"; "disabledRampSpells";
    "disabledArtifacts"; "disabledCreatures"; "disabledRituals";
    "disabledCostReducers"; "disabledDrawSpells"; "disabledTreasures" ].

(** One round of the [forEach]:
    [rehydrated[field] = new Set(config[field] ?? [])]. *)
Definition rehydrateField (config : object) (acc : option object)
  (field : string) : option object :=
  rehydrated ← acc;
  s ← newSet (nullish (get config field) (VArr []));
  Some (<[field := s]> rehydrated).

Definition rehydrate (config : object) : option object :=
  foldl (rehydrateField config) (Some config) SET_FIELDS.

(** A value caught by [catch (err)]: [null] or [undefined], or any other
    value with its [message] property, when it has one, and what
    [String(err)] gives. *)
Inductive thrown : Type :=
| ThrownNullish
| Thrown (message : option string) (text : string).

(** [err.message]; reading it of [null] or [undefined] is a TypeError. *)
Definition err_message (err : thrown) : option string :=
  match err with
  | ThrownNullish => None
  | Thrown message _ => message
  end.

(** [err.message ?? String(err)]; [None] stands for the TypeError that
    reading [err.message] raises when [err] is [null] or [undefined]. *)
Definition errorText (err : thrown) : option string :=
  match err with
  | ThrownNullish => None
  | Thrown message text => Some (default text message)
  end.

Section WithEngine.
Context {Deck Results : Type}.

(** What one call of [monteCarlo(deck, config, onProgress)] does, as the
    worker sees it: the [onProgress(completed, total)] calls it makes, in
    order, and then either a returned result or a thrown value.  [Results]
    is plain data, as the statistics are, which [postMessage] can clone. *)
Record run : Type := Run {
  progress_calls : list (nat * nat);
  outcome : Results + thrown }.

Variable monteCarlo : Deck -> object -> run.

(** A message to the worker; its [config] is an object. *)
Record in_msg : Type := InMsg {
  msg_type : string;
  msg_deckId : string;
  msg_deckToParse : Deck;
  msg_config : object }.

Inductive out_msg : Type :=
| PROGRESS (deckId : string) (completed total : nat)
| RESULT (deckId : string) (results : Results)
| ERROR (deckId : string) (message : string).

(** How the handler ends: it returns, or an exception escapes it (nothing
    catches the rehydration, which runs before the [try], nor what the
    [catch] block itself throws). *)
Inductive handled : Type :=
| Returned (posted : list out_msg)
| Uncaught (posted : list out_msg).

Definition posted_of (h : handled) : list out_msg :=
  match h with Returned p | Uncaught p => p end.

(** The message the [try] or the [catch] block posts last; [None] when the
    [catch] block throws before it posts. *)
Definition terminalOf (deckId : string) (o : Results + thrown)
  : option out_msg :=
  match o with
  | inl results => Some (RESULT deckId results)
  | inr err => ERROR deckId <$> errorText err
  end.

Definition onmessage (data : in_msg) : handled :=
  if decide (msg_type data = "RUN") then
    match rehydrate (msg_config data) with
    | None => Uncaught []
    | Some rehydrated =>
        let r := monteCarlo (msg_deckToParse data) rehydrated in
        let progress :=
          (fun p => PROGRESS (msg_deckId data) (fst p) (snd p))
            <$> progress_calls r in
        match terminalOf (msg_deckId data) (outcome r) with
        | Some last => Returned (progress ++ [last])
        | None => Uncaught progress
        end
    end
  else Returned [].

Definition is_terminal (m : out_msg) : bool :=
  match m with
  | PROGRESS _ _ _ => false
  | RESULT _ _ | ERROR _ _ => true
  end.

Definition is_result (m : out_msg) : bool :=
  match m with RESULT _ _ => true | _ => false end.

Definition is_error (m : out_msg) : bool :=
  match m with ERROR _ _ => true | _ => false end.

End WithEngine.

(** The protocol's shape of a RUN message's [config] (the header of
    simulationWorker.js): each of the nine fields is a plain array, or is
    missing or nullish. *)
Definition protocol_config (config : object) : bool :=
  forallb (fun f => match config !! f with
                    | None | Some VUndefined | Some VNull | Some (VArr _) => true
                    | Some _ => false
                    end) SET_FIELDS.

End Worker.

(** ** hooks/useDeckSlot.js *)

Module DeckSlot.

Section Slot.
Context {ParsedDeck Results Override : Type}.

(** A deck slot, as [defaultDeckSlot] builds it. *)
Record slot : Type := Slot {
  deckText : string;
  parsedDeck : option ParsedDeck;
  selectedKeyCards : gset string;
  includeArtifacts : bool;
  disabledArtifacts : gset string;
  includeCreatures : bool;
  disabledCreatures : gset string;
  manaOverrides : gmap string Override;
  includeExploration : bool;
  disabledExploration : gset string;
  includeRampSpells : bool;
  disabledRampSpells : gset string;
  includeRituals : bool;
  disabledRituals : gset string;
  includeCostReducers : bool;
  disabledCostReducers : gset string;
  includeDrawSpells : bool;
  disabledDrawSpells : gset string;
  drawOverrides : gmap string Override;
  includeTreasures : bool;
  disabledTreasures : gset string;
  treasureOverrides : gmap string Override;
  ritualOverrides : gmap string Override;
  simulationResults : option Results }.

(** Persisted slot data (from localStorage or the URL hash): any field may
    be missing or null, which [??] treats alike. *)
Record saved : Type := Saved {
  sv_deckText : option string;
  sv_selectedKeyCards : option (list string);
  sv_includeArtifacts : option bool;
  sv_disabledArtifacts : option (list string);
  sv_includeCreatures : option bool;
  sv_disabledCreatures : option (list string);
  sv_manaOverrides : option (gmap string Override);
  sv_includeExploration : option bool;
  sv_disabledExploration : option (list string);
  sv_includeRampSpells : option bool;
  sv_disabledRampSpells : option (list string);
  sv_includeRituals : option bool;
  sv_disabledRituals : option (list string);
  sv_includeCostReducers : option bool;
  sv_disabledCostReducers : option (list string);
  sv_includeDrawSpells : option bool;
  sv_disabledDrawSpells : option (list string);
  sv_drawOverrides : option (gmap string Override);
  sv_includeTreasures : option bool;
  sv_disabledTreasures : option (list string);
  sv_treasureOverrides : option (gmap string Override);
  sv_ritualOverrides : option (gmap string Override) }.

(** The default argument [saved = {}]. *)
Definition noSaved : saved :=
  {| sv_deckText := None;
     sv_selectedKeyCards := None;
     sv_includeArtifacts := None;
     sv_disabledArtifacts := None;
     sv_includeCreatures := None;
     sv_disabledCreatures := None;
     sv_manaOverrides := None;
     sv_includeExploration := None;
     sv_disabledExploration := None;
     sv_includeRampSpells := None;
     sv_disabledRampSpells := None;
     sv_includeRituals := None;
     sv_disabledRituals := None;
     sv_includeCostReducers := None;
     sv_disabledCostReducers := None;
     sv_includeDrawSpells := None;
     sv_disabledDrawSpells := None;
     sv_drawOverrides := None;
     sv_includeTreasures := None;
     sv_disabledTreasures := None;
     sv_treasureOverrides := None;
     sv_ritualOverrides := None |}.

Definition defaultDeckSlot (s : saved) : slot :=
  {| deckText := default "" (sv_deckText s);
     parsedDeck := None;
     selectedKeyCards := list_to_set (default [] (sv_selectedKeyCards s));
     includeArtifacts := default true (sv_includeArtifacts s);
     disabledArtifacts := list_to_set (default [] (sv_disabledArtifacts s));
     includeCreatures := default true (sv_includeCreatures s);
     disabledCreatures := list_to_set (default [] (sv_disabledCreatures s));
     manaOverrides := default ∅ (sv_manaOverrides s);
     includeExploration := default true (sv_includeExploration s);
     disabledExploration := list_to_set (default [] (sv_disabledExploration s));
     includeRampSpells := default true (sv_includeRampSpells s);
     disabledRampSpells := list_to_set (default [] (sv_disabledRampSpells s));
     includeRituals := default true (sv_includeRituals s);
     disabledRituals := list_to_set (default [] (sv_disabledRituals s));
     includeCostReducers := default true (sv_includeCostReducers s);
     disabledCostReducers := list_to_set (default [] (sv_disabledCostReducers s));
     includeDrawSpells := default true (sv_includeDrawSpells s);
     disabledDrawSpells := list_to_set (default [] (sv_disabledDrawSpells s));
     drawOverrides := default ∅ (sv_drawOverrides s);
     includeTreasures := default true (sv_includeTreasures s);
     disabledTreasures := list_to_set (default [] (sv_disabledTreasures s));
     treasureOverrides := default ∅ (sv_treasureOverrides s);
     ritualOverrides := default ∅ (sv_ritualOverrides s);
     simulationResults := None |}.

Definition serializeDeckSlot (sl : slot) : saved :=
  {| sv_deckText := Some (deckText sl);
     sv_selectedKeyCards := Some (elements (selectedKeyCards sl));
     sv_includeArtifacts := Some (includeArtifacts sl);
     sv_disabledArtifacts := Some (elements (disabledArtifacts sl));
     sv_includeCreatures := Some (includeCreatures sl);
     sv_disabledCreatures := Some (elements (disabledCreatures sl));
     sv_manaOverrides := Some (manaOverrides sl);
     sv_includeExploration := Some (includeExploration sl);
     sv_disabledExploration := Some (elements (disabledExploration sl));
     sv_includeRampSpells := Some (includeRampSpells sl);
     sv_disabledRampSpells := Some (elements (disabledRampSpells sl));
     sv_includeRituals := Some (includeRituals sl);
     sv_disabledRituals := Some (elements (disabledRituals sl));
     sv_includeCostReducers := Some (includeCostReducers sl);
     sv_disabledCostReducers := Some (elements (disabledCostReducers sl));
     sv_includeDrawSpells := Some (includeDrawSpells sl);
     sv_disabledDrawSpells := Some (elements (disabledDrawSpells sl));
     sv_drawOverrides := Some (drawOverrides sl);
     sv_includeTreasures := Some (includeTreasures sl);
     sv_disabledTreasures := Some (elements (disabledTreasures sl));
     sv_treasureOverrides := Some (treasureOverrides sl);
     sv_ritualOverrides := Some (ritualOverrides sl) |}.

End Slot.

End DeckSlot.

(** ** utils/uiHelpers.jsx: [prepareChartData] *)

Module ChartData.

(** A JS number that may be missing: [None] stands for [undefined], [null]
    and [NaN], which [|| 0] and [safeToFixed] all treat alike.  Arithmetic
    is exact (rationals), not IEEE doubles. *)
Abbreviation num := (option Q).

(** [x || 0] on a number (0 is falsy too, and gives 0). *)
Definition orZero (x : num) : Q := default 0%Q x.

(** [arr?.[i]] *)
Definition at_ (arr : option (list num)) (i : nat) : num :=
  l ← arr; mjoin (l !! i).

(** Rounding to the nearest integer, halves away from zero, as [toFixed]
    does. *)
Definition roundHalfAway (q : Q) : Z :=
  if Qle_bool 0 q then Qfloor (q + (1 # 2))%Q else (- Qfloor (- q + (1 # 2))%Q)%Z.

Definition pow10 (d : nat) : positive := Pos.pow 10 (Pos.of_nat d).

(** Modelled from the spec: [safeToFixed] of the missing utils/math.js; its
    unit tests (math.test.js) say what it does: 0 for [undefined], [null]
    and [NaN], otherwise the number rounded to [d] decimals (2 by default),
    returned as a number. *)
Definition safeToFixed (v : num) (d : nat) : Q :=
  match v with
  | None => 0%Q
  | Some q =>
      match d with
      | O => inject_Z (roundHalfAway q)
      | S _ => Qred (roundHalfAway (q * inject_Z (Zpos (pow10 d)))%Q # pow10 d)
      end
  end.

Record colors : Type := Colors { cW : num; cU : num; cB : num; cR : num; cG : num }.

(** The fields of [simulationResults] that [prepareChartData] reads; each
    may be missing. *)
Record results : Type := Results {
  landsPerTurn : option (list num);
  landsPerTurnStdDev : option (list num);
  untappedLandsPerTurn : option (list num);
  untappedLandsPerTurnStdDev : option (list num);
  totalManaPerTurn : option (list num);
  totalManaPerTurnStdDev : option (list num);
  colorsByTurn : option (list (option colors));
  lifeLossPerTurn : option (list num);
  lifeLossPerTurnStdDev : option (list num);
  cardsDrawnPerTurn : option (list num);
  cardsDrawnPerTurnStdDev : option (list num);
  treasurePerTurn : option (list num);
  treasurePerTurnStdDev : option (list num);
  keyCardPlayability : option (gmap string (list num));
  hasBurstCards : bool;
  keyCardPlayabilityBurst : option (gmap string (list num)) }.

(** [{}] *)
Definition noResults : results :=
  Results None None None None None None None None None None None None None
          None false None.

(** [colorsByTurn?.[i]?.W] and its siblings *)
Definition colorAt (r : results) (i : nat) (c : colors -> num) : num :=
  l ← colorsByTurn r; o ← l !! i; k ← o; c k.

(** A row of [landsData]; the fields are the keys ['Total Lands'],
    ['Untapped Lands'], ['Total Lands Lo'], ['Total Lands Hi'],
    ['Untapped Lands Lo'], ['Untapped Lands Hi'], [_landsSd], [_untappedSd]. *)
Record landsRow : Type := LandsRow {
  lr_turn : nat;
  TotalLands : Q;
  UntappedLands : Q;
  TotalLandsLo : Q;
  TotalLandsHi : Q;
  UntappedLandsLo : Q;
  UntappedLandsHi : Q;
  landsSd : Q;
  untappedSd : Q }.

(** A row of [manaByColorData]. *)
Record manaRow : Type := ManaRow {
  mr_turn : nat;
  TotalMana : Q;
  TotalManaLo : Q;
  TotalManaHi : Q;
  manaSd : Q;
  mW : Q; mU : Q; mB : Q; mR : Q; mG : Q }.

(** A row of [lifeLossData], [cardsDrawnData] or [treasureData]: the value
    (['Life Loss'], ['Cards Drawn'], ['Treasure Pool']), its Lo and Hi band
    and the standard deviation. *)
Record bandRow : Type := BandRow {
  br_turn : nat;
  br_value : Q;
  br_lo : Q;
  br_hi : Q;
  br_sd : Q }.

(** A row of [keyCardsData]: an object keyed by ["turn"] and by card names. *)
Abbreviation keyCardRow := (gmap string Q).

Definition lo (avg sd : Q) : Q := safeToFixed (Some (Qmax 0 (avg - sd)%Q)) 2.
Definition hi (avg sd : Q) : Q := safeToFixed (Some (avg + sd)%Q) 2.

Definition landsRowAt (r : results) (i : nat) : landsRow :=
  let landsAvg := orZero (at_ (landsPerTurn r) i) in
  let landsSd := orZero (at_ (landsPerTurnStdDev r) i) in
  let untappedAvg := orZero (at_ (untappedLandsPerTurn r) i) in
  let untappedSd := orZero (at_ (untappedLandsPerTurnStdDev r) i) in
  {| lr_turn := i + 1;
     TotalLands := safeToFixed (Some landsAvg) 2;
     UntappedLands := safeToFixed (Some untappedAvg) 2;
     TotalLandsLo := lo landsAvg landsSd;
     TotalLandsHi := hi landsAvg landsSd;
     UntappedLandsLo := lo untappedAvg untappedSd;
     UntappedLandsHi := hi untappedAvg untappedSd;
     landsSd := safeToFixed (Some landsSd) 2;
     untappedSd := safeToFixed (Some untappedSd) 2 |}.

Definition manaRowAt (r : results) (i : nat) : manaRow :=
  let manaAvg := orZero (at_ (totalManaPerTurn r) i) in
  let manaSd := orZero (at_ (totalManaPerTurnStdDev r) i) in
  {| mr_turn := i + 1;
     TotalMana := safeToFixed (Some manaAvg) 2;
     TotalManaLo := lo manaAvg manaSd;
     TotalManaHi := hi manaAvg manaSd;
     manaSd := safeToFixed (Some manaSd) 2;
     mW := safeToFixed (colorAt r i cW) 2;
     mU := safeToFixed (colorAt r i cU) 2;
     mB := safeToFixed (colorAt r i cB) 2;
     mR := safeToFixed (colorAt r i cR) 2;
     mG := safeToFixed (colorAt r i cG) 2 |}.

Definition bandRowAt (avgs sds : option (list num)) (i : nat) : bandRow :=
  let avg := orZero (at_ avgs i) in
  let sd := orZero (at_ sds i) in
  {| br_turn := i + 1;
     br_value := safeToFixed (Some avg) 2;
     br_lo := lo avg sd;
     br_hi := hi avg sd;
     br_sd := safeToFixed (Some sd) 2 |}.

(** [row[key] = v] for a number [v]: the key is added or written over,
    except that an assignment to ["__proto__"] goes to the inherited setter,
    which ignores a number and adds no key. *)
Definition assign (key : string) (v : Q) (row : keyCardRow) : keyCardRow :=
  if decide (key = "__proto__") then row else <[key := v]> row.

(** [Object.keys(o).forEach(cardName => row[label(cardName)] =
    safeToFixed(o[cardName]?.[i], 1))].  The keys of one object are distinct,
    so the order in which they are visited does not show in the row. *)
Definition addColumns (label : string -> string) (o : gmap string (list num))
  (i : nat) (row : keyCardRow) : keyCardRow :=
  foldl (fun row p => assign (label (fst p))
                             (safeToFixed (mjoin (snd p !! i)) 1) row)
        row (map_to_list o).

Definition burstLabel (cardName : string) : string := cardName +:+ " (+burst)".

Definition keyCardRowAt (r : results) (i : nat) : keyCardRow :=
  let row0 : keyCardRow := {[ "turn" := inject_Z (Z.of_nat (i + 1)) ]} in
  let row1 := match keyCardPlayability r with
              | Some o => addColumns id o i row0
              | None => row0
              end in
  if hasBurstCards r then
    match keyCardPlayabilityBurst r with
    | Some o => addColumns burstLabel o i row1
    | None => row1
    end
  else row1.

Record chartData : Type := ChartDataOf {
  landsData : list landsRow;
  manaByColorData : list manaRow;
  lifeLossData : list bandRow;
  cardsDrawnData : list bandRow;
  treasureData : list bandRow;
  keyCardsData : list keyCardRow }.

(** The [for (let i = 0; i < turns; i++)] loop pushes one row per array. *)
Definition prepareChartData (simulationResults : option results) (turns : nat)
  : option chartData :=
  match simulationResults with
  | None => None
  | Some r =>
      Some {| landsData := landsRowAt r <$> seq 0 turns;
              manaByColorData := manaRowAt r <$> seq 0 turns;
              lifeLossData :=
                bandRowAt (lifeLossPerTurn r) (lifeLossPerTurnStdDev r)
                  <$> seq 0 turns;
              cardsDrawnData :=
                bandRowAt (cardsDrawnPerTurn r) (cardsDrawnPerTurnStdDev r)
                  <$> seq 0 turns;
              treasureData :=
                bandRowAt (treasurePerTurn r) (treasurePerTurnStdDev r)
                  <$> seq 0 turns;
              keyCardsData := keyCardRowAt r <$> seq 0 turns |}
  end.

End ChartData.

(** ** The simulation engine

    simulation/simulationCore.js and simulation/monteCarlo.js are known here
    through the specification, their unit tests and their callers only; the
    definitions of this module follow the specification. *)

Module Engine.

Inductive color : Type := White | Blue | Black | Red | Green.

Global Instance color_eq_dec : EqDecision color.
Proof. solve_decision. Defined.

Inductive category : Type :=
| land | artifact | creature | rampSpell | ritual | costReducer | drawSpell
| treasureCard | exploration | spell.

Global Instance category_eq_dec : EqDecision category.
Proof. solve_decision. Defined.

(** The [manaScaling: { base, growth }] stamp of a scaling override. *)
Record scaling : Type := Scaling { base : Z; growth : Z }.

(** Modelled from the spec: the card records are built by cardProcessors.js,
    which is missing; this is the CardRecord of section 3, with the fields
    the mana calculator and the land selection read. *)
Record card : Type := Card {
  name : string;
  cardCategory : category;
  manaValue : Z;
  produces : list color;
  manaAmount : Z;
  manaScaling : option scaling;
  ignoresSummoningSickness : bool;
  isFetch : bool;
  isBounce : bool }.

(** Modelled from the spec: simulationCore.js is missing; a battlefield
    instance is a card with its simulation state (section 3). *)
Record permanent : Type := Permanent {
  permCard : card;
  enteredOnTurn : Z;
  tapped : bool }.

Definition isLand (c : card) : bool := bool_decide (cardCategory c = land).

(** Modelled from the spec: simulationCore.js is missing; section 4.1 has
    "Only non-summoning-sick sources count (lands always tap;
    creatures/artifacts only if enteredOnTurn < currentTurn, unless flagged
    otherwise)"; a tapped permanent gives nothing. *)
Definition canTapForMana (p : permanent) (currentTurn : Z) : bool :=
  negb (tapped p)
  && (isLand (permCard p)
      || (enteredOnTurn p <? currentTurn)%Z
      || ignoresSummoningSickness (permCard p)).

(** Modelled from the spec: simulationCore.js is missing; section 4.1 has
    "Scaling sources: amount = base + growth × max(0, currentTurn −
    enteredOnTurn)"; any other source gives its [manaAmount]. *)
Definition sourceAmount (p : permanent) (currentTurn : Z) : Z :=
  match manaScaling (permCard p) with
  | Some s => (base s + growth s * Z.max 0 (currentTurn - enteredOnTurn p))%Z
  | None => manaAmount (permCard p)
  end.

(** Total mana and the per-color breakdown. *)
Record manaPool : Type := ManaPool {
  total : Z;
  poolW : Z; poolU : Z; poolB : Z; poolR : Z; poolG : Z }.

Definition emptyPool : manaPool := ManaPool 0 0 0 0 0 0.


Definition ifProduces (c : color) (p : permanent) (amount : Z) : Z :=
  if bool_decide (c ∈ produces (permCard p)) then amount else 0%Z.

(** One source added to the running pool. *)
Definition addSource (currentTurn : Z) (acc : manaPool) (p : permanent)
  : manaPool :=
  if canTapForMana p currentTurn then
    let amount := sourceAmount p currentTurn in
    {| total := total acc + amount;
       poolW := poolW acc + ifProduces White p amount;
       poolU := poolU acc + ifProduces Blue p amount;
       poolB := poolB acc + ifProduces Black p amount;
       poolR := poolR acc + ifProduces Red p amount;
       poolG := poolG acc + ifProduces Green p amount |}
  else acc.

(** Modelled from the spec: [calculateManaAvailability] of the missing
    simulationCore.js, after section 4.1: total mana and a per-color
    breakdown of a battlefield snapshot (first pass; the second pass for
    filter lands is left out). *)
Definition calculateManaAvailability (battlefield : list permanent)
  (currentTurn : Z) : manaPool :=
  foldl (addSource currentTurn) emptyPool battlefield.


Section LandSelection.
(** Two tests the specification names without saying how they are made:
    whether "enough untapped mana remains to pay" a fetch land's
    activation, and whether a land would enter untapped. *)
Variable canPayActivation : card -> list permanent -> bool.
Variable entersUntapped : card -> list permanent -> bool.

Definition hasNonBounceLand (battlefield : list permanent) : bool :=
  existsb (fun p => isLand (permCard p) && negb (isBounce (permCard p)))
          battlefield.

Definition playableFetch (battlefield : list permanent) (c : card) : bool :=
  isLand c && isFetch c && canPayActivation c battlefield.

Definition untappedNonBounce (battlefield : list permanent) (c : card) : bool :=
  isLand c && negb (isBounce c) && entersUntapped c battlefield.

Definition playableBounce (battlefield : list permanent) (c : card) : bool :=
  isLand c && isBounce c && hasNonBounceLand battlefield.

(** The first card of the hand (with its position) that passes a test. *)
Definition firstIn (hand : list card) (test : card -> bool)
  : option (nat * card) :=
  list_find (fun c => test c = true) hand.

(** Modelled from the spec: [selectBestLand] of the missing
    simulationCore.js, after section 4.2: fetch lands that can be paid for,
    then untapped non-bounce lands, then bounce lands when a non-bounce land
    is in play, then any land; within a class the first in hand. *)
Definition selectBestLand (hand : list card) (battlefield : list permanent)
  : option (nat * card) :=
  match firstIn hand (playableFetch battlefield) with
  | Some l => Some l
  | None =>
    match firstIn hand (untappedNonBounce battlefield) with
    | Some l => Some l
    | None =>
      match firstIn hand (playableBounce battlefield) with
      | Some l => Some l
      | None => firstIn hand isLand
      end
    end
  end.

(** The priority class of a card of the hand: 1 is the highest; a card
    that is no land has none. *)
Definition landPriority (battlefield : list permanent) (c : card)
  : option nat :=
  if negb (isLand c) then None
  else if playableFetch battlefield c then Some 1%nat
  else if untappedNonBounce battlefield c then Some 2%nat
  else if playableBounce battlefield c then Some 3%nat
  else Some 4%nat.

End LandSelection.

(** *** The Monte Carlo driver *)

(** Modelled from the spec: the two land statistics the missing
    monteCarlo.js records each turn (section 3: "lands, untapped lands"). *)
Definition countLands (battlefield : list permanent) : Z :=
  Z.of_nat (length (List.filter (fun p => isLand (permCard p)) battlefield)).

Definition countUntappedLands (battlefield : list permanent) : Z :=
  Z.of_nat (length (List.filter
    (fun p => isLand (permCard p) && negb (tapped p)) battlefield)).

Definition sumZ (l : list Z) : Z := foldr Z.add 0%Z l.

(** Modelled from the spec: [average] of the missing utils/math.js, as its
    unit tests describe it: 0 for an empty array, the sum over the length
    otherwise. *)
Definition average (l : list Z) : Q :=
  match l with
  | [] => 0%Q
  | _ => (inject_Z (sumZ l) / inject_Z (Z.of_nat (length l)))%Q
  end.

(** The trajectory of one game: the battlefield at the end of each turn. *)
Abbreviation game := (list (list permanent)).

(** The values one statistic takes at turn [t], one per iteration. *)
Definition perIteration (stat : list permanent -> Z) (games : list game)
  (t : nat) : list Z :=
  (fun g => stat (default [] (g !! t))) <$> games.

Record simulationResults : Type := SimulationResults {
  landsPerTurn : list Q;
  untappedLandsPerTurn : list Q;
  totalManaPerTurn : list Q;
  handsKept : nat }.

Definition natField (cfg : object) (f : string) : nat :=
  match get cfg f with
  | VNum n => Z.to_nat n
  | _ => 0%nat
  end.

(** Modelled from the spec: the texts of the two configuration errors of
    the missing monteCarlo.js; section 7 only asks for "a descriptive
    condition". *)
Definition emptyDeckMessage : string := "The deck is empty".
Definition zeroIterationsMessage : string := "The number of iterations must be positive".

Definition configError (message : string) : @Worker.run simulationResults :=
  Worker.Run [] (inr (Worker.Thrown (Some message) ("Error: " +:+ message))).

(** Modelled from the spec: the progress reports of the missing
    monteCarlo.js, after sections 5 and 6:
    [(completedIterations, totalIterations)] every 250 completed iterations
    and once at completion. *)
Definition progressReports (iterations : nat) : list (nat * nat) :=
  ((fun k => (k, iterations))
     <$> List.filter (fun k => (k mod 250 =? 0)%nat) (seq 1 iterations))
  ++ [(iterations, iterations)].

Section Driver.
(** One simulated game (mulligan policy and turn engine), for the
    iteration of a given number. *)
Variable playGame : list card -> object -> nat -> game.

(** Modelled from the spec: [monteCarlo] of the missing monteCarlo.js, the
    driver of sections 2 and 7: configuration errors surface before the loop
    starts; otherwise every iteration plays one game and the per-turn
    statistics are averaged over the iterations. *)
Definition monteCarlo (deck : list card) (cfg : object)
  : @Worker.run simulationResults :=
  let iterations := natField cfg "iterations" in
  let turns := natField cfg "turns" in
  match deck with
  | [] => configError emptyDeckMessage
  | _ =>
    if (iterations =? 0)%nat then configError zeroIterationsMessage
    else
      let games := playGame deck cfg <$> seq 0 iterations in
      Worker.Run (progressReports iterations)
        (inl {| landsPerTurn :=
                  (fun t => average (perIteration countLands games t))
                    <$> seq 0 turns;
                untappedLandsPerTurn :=
                  (fun t => average (perIteration countUntappedLands games t))
                    <$> seq 0 turns;
                totalManaPerTurn :=
                  (fun t => average (perIteration
                     (fun bf => total (calculateManaAvailability bf
                                         (Z.of_nat (t + 1)))) games t))
                    <$> seq 0 turns;
                handsKept := iterations |})
  end.

End Driver.

End Engine.

(** ** Concrete inputs used to exercise the statements below *)

Module Demo.

(** A configuration as App.jsx builds it (only some fields shown). *)
Definition config : object :=
  <["selectedKeyCards" := VSet {["Sol Ring"; "Counterspell"]}]>
  (<["disabledArtifacts" := VSet {["Mana Vault"]}]>
  (<["iterations" := VNum 10000]>
  (<["commanderMode" := VBool false]> ∅))).

(** The [config] of a RUN message, as it arrives in the worker. *)
Definition incoming : object :=
  <["selectedKeyCards" := VArr ["Sol Ring"; "Counterspell"]]>
  (<["disabledArtifacts" := VArr ["Mana Vault"]]>
  (<["iterations" := VNum 10000]> ∅)).

(** A [config] that breaks the protocol: a number where an array belongs. *)
Definition broken : object :=
  <["selectedKeyCards" := VNum 5]> ∅.

(** An engine that reports progress twice and throws when the deck is
    empty. *)
Definition engine (deck : list string) (cfg : object)
  : @Worker.run (list string) :=
  match deck with
  | [] => Worker.Run [] (inr (Worker.Thrown (Some "Deck is empty") "Error: Deck is empty"))
  | _ => Worker.Run [(250, 500); (500, 500)]%nat (inl deck)
  end.

(** An engine that reports progress once and then throws [null]. *)
Definition nullEngine (deck : list string) (cfg : object)
  : @Worker.run (list string) :=
  Worker.Run [(250, 500)]%nat (inr Worker.ThrownNullish).

Definition run_msg : @Worker.in_msg (list string) :=
  Worker.InMsg "RUN" "A" ["Forest"; "Sol Ring"] incoming.

Definition bad_msg : @Worker.in_msg (list string) :=
  Worker.InMsg "RUN" "A" ["Forest"] broken.

Definition empty_msg : @Worker.in_msg (list string) :=
  Worker.InMsg "RUN" "B" [] incoming.

(** Marwyn with the scaling override of the unit tests (base 1, growth 1),
    a Forest and a tapped Sol Ring. *)
Definition marwyn : Engine.permanent :=
  Engine.Permanent
    (Engine.Card "Marwyn, the Nurturer" Engine.creature 3 [Engine.Green] 1
                 (Some (Engine.Scaling 1 1)) false false false)
    2 false.

Definition forest : Engine.card :=
  Engine.Card "Forest" Engine.land 0 [Engine.Green] 1 None false false false.


Definition guildgate : Engine.card :=
  Engine.Card "Selesnya Guildgate" Engine.land 0 [Engine.Green; Engine.White]
              1 None false false false.

Definition growthChamber : Engine.card :=
  Engine.Card "Simic Growth Chamber" Engine.land 0 [Engine.Green; Engine.Blue]
              2 None false false true.

Definition woodedFoothills : Engine.card :=
  Engine.Card "Wooded Foothills" Engine.land 0 [] 0 None false true false.

Definition llanowar : Engine.card :=
  Engine.Card "Llanowar Elves" Engine.creature 1 [Engine.Green] 1 None
              false false false.

(** A fetch land can be activated when something on the battlefield can be
    tapped; only the Guildgate enters tapped. *)
Definition canPay (c : Engine.card) (battlefield : list Engine.permanent)
  : bool :=
  (1 <=? Engine.total (Engine.calculateManaAvailability battlefield 1))%Z.

Definition untappedEntry (c : Engine.card)
  (battlefield : list Engine.permanent) : bool :=
  negb (String.eqb (Engine.name c) "Selesnya Guildgate").

(** A game in which a Forest comes down every turn, the one of the second
    turn tapped. *)
Definition forestEachTurn (deck : list Engine.card) (cfg : object) (k : nat)
  : Engine.game :=
  [ [Engine.Permanent forest 1 false];
    [Engine.Permanent forest 1 false; Engine.Permanent forest 2 true];
    [Engine.Permanent forest 1 false; Engine.Permanent forest 2 false;
     Engine.Permanent forest 3 false] ].

Definition simConfig : object :=
  <["iterations" := VNum 4]> (<["turns" := VNum 3]> ∅).

Definition noIterations : object :=
  <["iterations" := VNum 0]> (<["turns" := VNum 3]> ∅).

(** Simulation results with one statistic missing and short arrays. *)
Definition sim : ChartData.results :=
  {| ChartData.landsPerTurn := Some [Some (1 # 2)%Q; Some (3 # 2)%Q];
     ChartData.landsPerTurnStdDev := Some [Some 2%Q];
     ChartData.untappedLandsPerTurn := None;
     ChartData.untappedLandsPerTurnStdDev := None;
     ChartData.totalManaPerTurn := Some [Some 1%Q; Some 2%Q; Some 3%Q];
     ChartData.totalManaPerTurnStdDev := None;
     ChartData.colorsByTurn := None;
     ChartData.lifeLossPerTurn := Some [Some 4%Q];
     ChartData.lifeLossPerTurnStdDev := Some [Some 1%Q];
     ChartData.cardsDrawnPerTurn := None;
     ChartData.cardsDrawnPerTurnStdDev := None;
     ChartData.treasurePerTurn := None;
     ChartData.treasurePerTurnStdDev := None;
     ChartData.keyCardPlayability := Some {[ "Sol Ring" := [Some 0%Q; Some (91 # 2)%Q] ]};
     ChartData.hasBurstCards := true;
     ChartData.keyCardPlayabilityBurst := Some {[ "Sol Ring" := [Some 30%Q] ]} |}.

(** Results that track a key card whose name is "turn". *)
Definition clash : ChartData.results :=
  {| ChartData.landsPerTurn := None;
     ChartData.landsPerTurnStdDev := None;
     ChartData.untappedLandsPerTurn := None;
     ChartData.untappedLandsPerTurnStdDev := None;
     ChartData.totalManaPerTurn := None;
     ChartData.totalManaPerTurnStdDev := None;
     ChartData.colorsByTurn := None;
     ChartData.lifeLossPerTurn := None;
     ChartData.lifeLossPerTurnStdDev := None;
     ChartData.cardsDrawnPerTurn := None;
     ChartData.cardsDrawnPerTurnStdDev := None;
     ChartData.treasurePerTurn := None;
     ChartData.treasurePerTurnStdDev := None;
     ChartData.keyCardPlayability := Some {[ "turn" := [Some 50%Q] ]};
     ChartData.hasBurstCards := false;
     ChartData.keyCardPlayabilityBurst := None |}.

End Demo.

(** ** Further definitions: values that break the boundary loops *)

Module Shape.

(** Of the values a configuration is modelled to hold, those that neither
    [[...x]] nor [new Set(x)] can iterate once [?? []] has replaced
    [undefined] and [null]: booleans, numbers and plain objects. *)
Definition notIterable (v : value) : bool :=
  match v with
  | VBool _ | VNum _ | VObj _ => true
  | _ => false
  end.

End Shape.

(** ** Further concrete inputs *)

Module Samples.

(** An incoming [config] in which a name is listed twice. *)
Definition repeated : object :=
  <["disabledArtifacts" := VArr ["Sol Ring"; "Mana Vault"; "Sol Ring"]]>
  (<["iterations" := VNum 100]> ∅).

End Samples.

(** ** Further definitions for the deck slot *)

Module SlotShape.

(** [l'] lists the members of [l], each once. *)
Definition sameMembers (l l' : list string) : Prop :=
  NoDup l' ∧ ∀ x, x ∈ l' ↔ x ∈ l.

End SlotShape.

(** ** hooks/useDeckSlot.js: [makeSlotSetter] *)

Module SlotSetter.

(** The argument of a setter: a new value, or a function of the current
    one ([typeof valOrFn === 'function']). *)
Inductive valOrFn : Type :=
| Val (v : value)
| Fn (f : value -> value).

(** The updater handed to [setSlot]:
    [prev => ({ ...prev, [key]: typeof valOrFn === 'function'
                                  ? valOrFn(prev[key]) : valOrFn })]. *)
Definition updater (key : string) (x : valOrFn) (prev : object) : object :=
  <[key := match x with
           | Fn f => f (get prev key)
           | Val v => v
           end]> prev.

(** [makeSlotSetter(setSlot)(key)(valOrFn)] *)
Definition makeSlotSetter {S : Type} (setSlot : (object -> object) -> S)
  (key : string) (x : valOrFn) : S :=
  setSlot (updater key x).

(** React's [setState] with a function: the new state is the function of
    the current one. *)
Definition setState (u : object -> object) (st : object) : object := u st.

End SlotSetter.

(** ** App.jsx: [runSimulation] and its handlers of the worker's messages *)

Module AppRun.

(** [Math.round] on a finite number. *)
Definition mathRound (q : Q) : Z := Qfloor (q + (1 # 2))%Q.

(** The argument of [setSimProgress] on a PROGRESS message:
    [Math.round(offset + (completed / total) * share)], with
    [offset = deckId === 'B' ? 50 : 0] and [share = 100 / totalDecks];
    [None] stands for the NaN or Infinity that [total = 0] gives. *)
Definition progressValue (comparisonMode : bool) (deckId : string)
  (completed total : nat) : option Z :=
  if (total =? 0)%nat then None
  else
    let offset : Q := if decide (deckId = "B") then 50%Q else 0%Q in
    let share : Q := (100 / (if comparisonMode then 2 else 1))%Q in
    Some (mathRound (offset
                     + (inject_Z (Z.of_nat completed)
                        / inject_Z (Z.of_nat total)) * share)%Q).

(** The progress shown after a run's PROGRESS messages: the value of the
    last one, or what was shown before when there was none. *)
Definition progressAfter (comparisonMode : bool) (deckId : string)
  (calls : list (nat * nat)) (shown : option Z) : option Z :=
  foldl (fun _ c => progressValue comparisonMode deckId (fst c) (snd c))
        shown calls.

Section WithEngine.
Context {Deck Results : Type}.

(** The state [runSimulation] and its handlers write. *)
Record state : Type := State {
  error : string;
  isSimulating : bool;
  simProgress : option Z;
  resultsA : option Results;
  resultsB : option Results;
  workerAlive : bool }.

Definition setError (e : string) (st : state) : state :=
  State e (isSimulating st) (simProgress st) (resultsA st) (resultsB st)
        (workerAlive st).

Definition setSimProgress (p : option Z) (st : state) : state :=
  State (error st) (isSimulating st) p (resultsA st) (resultsB st)
        (workerAlive st).

Definition setResultsA (r : Results) (st : state) : state :=
  State (error st) (isSimulating st) (simProgress st) (Some r) (resultsB st)
        (workerAlive st).

Definition setResultsB (r : Results) (st : state) : state :=
  State (error st) (isSimulating st) (simProgress st) (resultsA st) (Some r)
        (workerAlive st).

(** [finish]: [worker.terminate(); setIsSimulating(false)]. *)
Definition finish (st : state) : state :=
  State (error st) false (simProgress st) (resultsA st) (resultsB st) false.

(** [worker.onerror]: [err.message ?? 'unknown']. *)
Definition onerror (message : option string) (st : state) : state :=
  finish (setError ("Simulation error: " +:+ default "unknown" message) st).

(** In comparison mode: deck B and its serialised configuration. *)
Abbreviation second := (option (Deck * object)).

(** [worker.onmessage] of the main thread: the new state and what it posts
    to the worker. *)
Definition onWorkerMessage (deckB : second) (st : state)
  (data : @Worker.out_msg Results) : state * list (@Worker.in_msg Deck) :=
  match data with
  | Worker.PROGRESS deckId completed total =>
      (setSimProgress
         (progressValue (bool_decide (is_Some deckB)) deckId completed total)
         st, [])
  | Worker.RESULT deckId results =>
      if decide (deckId = "A") then
        let st1 := setResultsA results st in
        match deckB with
        | Some (parsedDeckB, configB) =>
            (setSimProgress (Some 50%Z) st1,
             [Worker.InMsg "RUN" "B" parsedDeckB configB])
        | None => (finish (setSimProgress (Some 100%Z) st1), [])
        end
      else
        (finish (setSimProgress (Some 100%Z) (setResultsB results st)), [])
  | Worker.ERROR deckId message =>
      (finish (setError ("Simulation error: " +:+ message) st), [])
  end.

(** The messages a handler run of the worker posted reach the main thread
    in order, as long as the worker has not been terminated. *)
Fixpoint deliver (deckB : second) (st : state)
  (posted : list (@Worker.out_msg Results))
  : state * list (@Worker.in_msg Deck) :=
  match posted with
  | [] => (st, [])
  | m :: rest =>
      if workerAlive st then
        let '(st1, out1) := onWorkerMessage deckB st m in
        let '(st2, out2) := deliver deckB st1 rest in
        (st2, (out1 ++ out2)%list)
      else (st, [])
  end.

Variable monteCarlo : Deck -> object -> @Worker.run Results.

(** What the browser reports to [worker.onerror] when an exception escapes
    the worker's handler. *)
Variable uncaughtMessage : option string.

(** The worker takes the queued messages one by one; the queue is given up
    once the worker is terminated.  [fuel] bounds the number of messages
    taken. *)
Fixpoint pump (fuel : nat) (deckB : second) (st : state)
  (queue : list (@Worker.in_msg Deck)) : state * list (@Worker.in_msg Deck) :=
  match fuel, queue with
  | S fuel', data :: rest =>
      if workerAlive st then
        match Worker.onmessage monteCarlo data with
        | Worker.Returned posted =>
            let '(st1, out) := deliver deckB st posted in
            pump fuel' deckB st1 (rest ++ out)%list
        | Worker.Uncaught posted =>
            let '(st1, out) := deliver deckB st posted in
            pump fuel' deckB (onerror uncaughtMessage st1) (rest ++ out)%list
        end
      else (st, [])
  | _, _ => (st, if workerAlive st then queue else [])
  end.

(** How [runSimulation] ends: it returns at a guard, it starts the worker
    (the state is the one reached when the worker's messages have been
    handled), or [serializeConfig] throws after the overlay was switched
    on. *)
Inductive ended : Type :=
| Guarded (st : state)
| Ran (st : state) (pending : list (@Worker.in_msg Deck))
| Threw (st : state).

Definition stateOf (e : ended) : state :=
  match e with Guarded st | Ran st _ | Threw st => st end.

(** [runSimulation], with the configurations [buildSimConfig] made of the
    two slots. *)
Definition runSimulation (fuel : nat) (parsedDeck parsedDeckB : option Deck)
  (comparisonMode : bool) (configOfA configOfB : object) (st : state)
  : ended :=
  match parsedDeck with
  | None => Guarded (setError "Please parse a deck first" st)
  | Some deckA =>
    match comparisonMode, parsedDeckB with
    | true, None => Guarded (setError "Please parse Deck B first" st)
    | _, _ =>
      let st0 := State "" true (Some 0%Z) (resultsA st) (resultsB st) true in
      let configB :=
        if comparisonMode then App.serializeConfig configOfB
        else Some configOfB in
      match configB, App.serializeConfig configOfA with
      | Some cB, Some cA =>
          let deckB : second :=
            if comparisonMode then (fun d => (d, cB)) <$> parsedDeckB
            else None in
          let '(st1, pending) :=
            pump fuel deckB st0 [Worker.InMsg "RUN" "A" deckA cA] in
          Ran st1 pending
      | _, _ => Threw st0
      end
    end
  end.

End WithEngine.

End AppRun.

(** ** utils/uiHelpers.jsx: [parseManaSymbols] *)

Module ManaSymbols.

Definition isOpen (c : ascii) : bool := Ascii.eqb c "{"%char.
Definition isClose (c : ascii) : bool := Ascii.eqb c "}"%char.

(** [[^}]+], greedily: the longest run of characters other than ["}"] and
    what follows it. *)
Fixpoint notCloseRun (cs : list ascii) : list ascii * list ascii :=
  match cs with
  | [] => ([], [])
  | c :: rest =>
      if isClose c then ([], cs)
      else let '(run, after) := notCloseRun rest in (c :: run, after)
  end.

(** [/\{([^}]+)\}/] tried at the head of [cs]: the characters between the
    braces and what follows the match.  The run has to be the longest one
    (a shorter one is followed by a character that is not ["}"]), and it
    may not be empty. *)
Definition matchAt (cs : list ascii) : option (list ascii * list ascii) :=
  match cs with
  | c :: rest =>
      if isOpen c then
        match notCloseRun rest with
        | ((_ :: _) as run, _ :: after) => Some (run, after)
        | _ => None
        end
      else None
  | [] => None
  end.

(** [String.prototype.match] with the [g] flag: the leftmost match, then on
    from its end; where there is no match at a position, on from the next
    one.  Every step drops a character, so [length cs] steps are enough. *)
Fixpoint matchAll (fuel : nat) (cs : list ascii) : list (list ascii) :=
  match fuel with
  | O => []
  | S fuel' =>
      match cs with
      | [] => []
      | _ :: tl =>
          match matchAt cs with
          | Some (run, after) => run :: matchAll fuel' after
          | None => matchAll fuel' tl
          end
      end
  end.

(** [s.replace(/[{}]/g, '')] on a match: the braces around it go, and any
    ["{"] inside it. *)
Definition stripBraces (run : list ascii) : string :=
  String.string_of_list_ascii
    (List.filter (fun c => negb (isOpen c || isClose c)) run).

(** [parseManaSymbols]; [None] is [null] or [undefined], which [!manaCost]
    treats like the empty string. *)
Definition parseManaSymbols (manaCost : option string) : list string :=
  match manaCost with
  | None => []
  | Some s =>
      let cs := String.list_ascii_of_string s in
      stripBraces <$> matchAll (length cs) cs
  end.

(** A mana cost written out: each symbol between braces. *)
Definition writeCost (symbols : list string) : string :=
  foldr (fun s acc => "{" +:+ s +:+ "}" +:+ acc) "" symbols.

(** A symbol with no brace in it. *)
Definition braceFree (s : string) : bool :=
  forallb (fun c => negb (isOpen c || isClose c)) (String.list_ascii_of_string s).

End ManaSymbols.

(** ** hooks/useCardLookup.js: the lookup map built from an uploaded file *)

Module CardLookup.

(** The fields of a Scryfall card object that the upload reads; all but the
    name may be missing. *)
Record scryfallCard : Type := ScryfallCard {
  name : string;
  layout : option string;
  set_type : option string;
  type_line : option string;
  cmc : option Q }.

(** [hay.includes(needle)] *)
Definition includes (needle hay : string) : bool :=
  bool_decide (is_Some (String.index 0 needle hay)).

(** The test that makes the loop skip a card. *)
Definition isToken (card : scryfallCard) : bool :=
  bool_decide (layout card = Some "token")
  || bool_decide (layout card = Some "double_faced_token")
  || bool_decide (set_type card = Some "token")
  || match type_line card with
     | Some t => includes "Token" t
     | None => false
     end.

(** [card.cmc || 0] *)
Definition cmcOf (card : scryfallCard) : Q := default 0%Q (cmc card).

Section Lower.
(** [String.prototype.toLowerCase] *)
Variable toLowerCase : string -> string.

(** One round of [data.forEach]: tokens are skipped; of two cards with one
    name the one with the greater [cmc] stays, the earlier one on a tie. *)
Definition addCard (lookupMap : gmap string scryfallCard)
  (card : scryfallCard) : gmap string scryfallCard :=
  if isToken card then lookupMap
  else
    let name := toLowerCase (name card) in
    match lookupMap !! name with
    | Some existing =>
        if negb (Qle_bool (cmcOf card) (cmcOf existing))
        then <[name := card]> lookupMap
        else lookupMap
    | None => <[name := card]> lookupMap
    end.

(** The [lookupMap] that [handleFileUpload] stores in the cache. *)
Definition buildLookupMap (data : list scryfallCard)
  : gmap string scryfallCard :=
  foldl addCard ∅ data.

End Lower.

End CardLookup.

(** Sample cards for the upload: one name printed twice with different
    [cmc], and a token. *)
Module CardSamples.
Import CardLookup.

(** Lower case for the letters A to Z. *)
Definition lowerAscii (c : ascii) : ascii :=
  let n := nat_of_ascii c in
  if (65 <=? n)%nat && (n <=? 90)%nat then ascii_of_nat (n + 32) else c.

Definition asciiLower (s : string) : string :=
  String.string_of_list_ascii (List.map lowerAscii (String.list_ascii_of_string s)).

Definition fireHalf : scryfallCard :=
  ScryfallCard "Fire // Ice" (Some "split") (Some "expansion")
    (Some "Instant // Instant") (Some 2%Q).

Definition fireIce : scryfallCard :=
  ScryfallCard "Fire // Ice" (Some "split") (Some "masters")
    (Some "Instant // Instant") (Some 4%Q).

Definition goblinToken : scryfallCard :=
  ScryfallCard "Goblin" (Some "token") (Some "token")
    (Some "Token Creature - Goblin") None.

Definition cards : list scryfallCard := [fireHalf; goblinToken; fireIce].

End CardSamples.

(** ** components/RitualsPanel.jsx: net-gain overrides *)

Module Rituals.

(** The fields of a ritual of the parsed deck that the handlers read. *)
Record ritual : Type := Ritual { name : string; netGain : Z }.

(** An override object [{ mode, value?, base?, growth? }]; [None] stands for
    a field that is missing, [undefined] or [null], which [??] and [?.]
    treat alike. *)
Record overrideObj : Type := OverrideObj {
  mode : option string;
  value : option Z;
  base : option Z;
  growth : option Z }.

(** A stored override: a number (the legacy form) or an object. *)
Inductive raw : Type :=
| Num (n : Z)
| Obj (o : overrideObj).

(** [ritualOverrides], keyed by the lower-case card name. *)
Abbreviation overrides := (gmap string raw).

Definition normalizeOverride (r : option raw) : option overrideObj :=
  match r with
  | None => None
  | Some (Num n) => Some (OverrideObj (Some "fixed") (Some n) None None)
  | Some (Obj o) => Some o
  end.

Definition effectiveGain (ritual : ritual) (overrideRaw : option raw) : Z :=
  match normalizeOverride overrideRaw with
  | None => netGain ritual
  | Some ov =>
      if bool_decide (mode ov = Some "scaling") then default 0%Z (base ov)
      else default (netGain ritual) (value ov)
  end.

(** What a handler passes to [setRitualOverrides]: a new object, or a
    function of the current one. *)
Inductive setterArg : Type :=
| Val (v : overrides)
| Fn (f : overrides -> overrides).

(** The state after the setter ran on [prev]. *)
Definition applyArg (x : setterArg) (prev : overrides) : overrides :=
  match x with
  | Val v => v
  | Fn f => f prev
  end.

(** [{ ...current, ...patch }]: a field of the patch wins. *)
Definition merge (current patch : overrideObj) : overrideObj :=
  {| mode := from_option Some (mode current) (mode patch);
     value := from_option Some (value current) (value patch);
     base := from_option Some (base current) (base patch);
     growth := from_option Some (growth current) (growth patch) |}.

(** The control events of one ritual's row: the mode select, and the number
    inputs, whose [n] is [parseInt(e.target.value, 10) || 0]. *)
Inductive event : Type :=
| ModeSelected (mode : string)
| ValueTyped (n : Z)
| BaseTyped (n : Z)
| GrowthTyped (n : Z).

(** The names every object inherits that a lower-case key can spell:
    [ritualOverrides[key]] finds them though nothing was stored, which a
    finite map of the stored overrides does not show. *)
Definition inherited (key : string) : bool :=
  bool_decide (key = "constructor") || bool_decide (key = "__proto__").

Section Lower.
(** [String.prototype.toLowerCase] *)
Variable toLowerCase : string -> string.

(** [setOverride(cardName, patch)]; [None] is the patch [null]. *)
Definition setOverride (ritualOverrides : overrides) (cardName : string)
  (patch : option overrideObj) : setterArg :=
  let key := toLowerCase cardName in
  match patch with
  | None => Val (delete key ritualOverrides)
  | Some patch =>
      Fn (fun prev =>
            let current :=
              default (OverrideObj (Some "fixed") (Some 0%Z) None None)
                      (normalizeOverride (prev !! key)) in
            <[key := Obj (merge current patch)]> prev)
  end.

(** [setMode(cardName, ritual, mode)]; [None] when no branch applies and the
    setter is not called. *)
Definition setMode (ritualOverrides : overrides) (cardName : string)
  (ritual : ritual) (mode : string) : option setterArg :=
  let key := toLowerCase cardName in
  if bool_decide (mode = "default") then
    Some (Val (delete key ritualOverrides))
  else if bool_decide (mode = "fixed") then
    let current := normalizeOverride (ritualOverrides !! key) in
    let value :=
      default (default (netGain ritual) (current ≫= base))
              (current ≫= value) in
    Some (Fn (fun prev =>
                <[key := Obj (OverrideObj (Some "fixed") (Some value)
                                          None None)]> prev))
  else if bool_decide (mode = "scaling") then
    let current := normalizeOverride (ritualOverrides !! key) in
    let base :=
      default (default (netGain ritual) (current ≫= base))
              (current ≫= value) in
    let growth := default 0%Z (current ≫= growth) in
    Some (Fn (fun prev =>
                <[key := Obj (OverrideObj (Some "scaling") None (Some base)
                                          (Some growth))]> prev))
  else None.

(** The mode the row shows: [override?.mode ?? 'default']. *)
Definition shownMode (ritualOverrides : overrides) (ritual : ritual)
  : string :=
  default "default"
    (normalizeOverride (ritualOverrides !! toLowerCase (name ritual))
       ≫= mode).

(** The handler a control of the row runs, for a row rendered from
    [ritualOverrides]; the value input is there in mode ['fixed'] only, the
    base and growth inputs in mode ['scaling'] only. *)
Definition onChange (ritualOverrides : overrides) (ritual : ritual)
  (ev : event) : option setterArg :=
  match ev with
  | ModeSelected mode => setMode ritualOverrides (name ritual) ritual mode
  | ValueTyped n =>
      if bool_decide (shownMode ritualOverrides ritual = "fixed") then
        Some (setOverride ritualOverrides (name ritual)
                (Some (OverrideObj None (Some n) None None)))
      else None
  | BaseTyped n =>
      if bool_decide (shownMode ritualOverrides ritual = "scaling") then
        Some (setOverride ritualOverrides (name ritual)
                (Some (OverrideObj None None (Some n) None)))
      else None
  | GrowthTyped n =>
      if bool_decide (shownMode ritualOverrides ritual = "scaling") then
        Some (setOverride ritualOverrides (name ritual)
                (Some (OverrideObj None None None (Some (Z.max 0 n)))))
      else None
  end.

(** The overrides after an event on a row rendered from the current
    overrides. *)
Definition after (ritualOverrides : overrides) (ritual : ritual) (ev : event)
  : option overrides :=
  x ← onChange ritualOverrides ritual ev; Some (applyArg x ritualOverrides).

End Lower.

(** The two shapes the panel writes, besides no override and a number. *)
Definition canonical (r : option raw) : bool :=
  match r with
  | None | Some (Num _) => true
  | Some (Obj o) =>
      bool_decide (mode o = Some "fixed" ∧ is_Some (value o)
                   ∧ base o = None ∧ growth o = None)
      || bool_decide (mode o = Some "scaling" ∧ value o = None
                      ∧ is_Some (base o) ∧ is_Some (growth o))
  end.

(** Sample overrides: a legacy number for one ritual, a scaling override for
    another. *)
Definition darkRitual : ritual := Ritual "Dark Ritual" 2.

Definition sampleOverrides : overrides :=
  <["dark ritual" := Num 3]>
  (<["seething song" := Obj (OverrideObj (Some "scaling") None (Some 2%Z)
                                         (Some 1%Z))]> ∅).

End Rituals.

(** * Properties *)

Module BoundaryFacts.

Lemma foldl_fieldStep_None conv config fields :
  foldl (fieldStep conv config) None fields = None.
Proof. induction fields as [|f fields IH]; [done | exact IH]. Qed.

Lemma foldl_fieldStep_Some conv (g : string -> value) config fields :
  ∀ acc,
  (∀ f, f ∈ fields → conv (nullish (get config f) (VArr [])) = Some (g f)) →
  ∃ out, foldl (fieldStep conv config) (Some acc) fields = Some out
         ∧ ∀ f, out !! f = if decide (f ∈ fields) then Some (g f) else acc !! f.
Proof.
  induction fields as [|x fields IH]; intros acc Hconv.
  - exists acc. split; [done|]. intros f. case_decide as Hin; [|done].
    by apply elem_of_nil in Hin.
  - cbn [foldl]. unfold fieldStep at 2. cbn.
    rewrite (Hconv x) by apply list_elem_of_here. cbn.
    destruct (IH (<[x := g x]> acc)) as (out & Hout & Hlk).
    { intros f Hf. apply Hconv. by apply list_elem_of_further. }
    exists out. split; [done|]. intros f. rewrite Hlk.
    destruct (decide (f ∈ fields)) as [Hin|Hnin].
    + rewrite decide_True; [done | by apply list_elem_of_further].
    + destruct (decide (f = x)) as [->|Hne].
      * rewrite decide_True by apply list_elem_of_here.
        by rewrite lookup_insert_eq.
      * rewrite decide_False.
        { by rewrite lookup_insert_ne. }
        intros [?|?]%elem_of_cons; done.
Qed.

Lemma foldl_fieldStep_fail conv config fields :
  ∀ acc f,
  f ∈ fields → conv (nullish (get config f) (VArr [])) = None →
  foldl (fieldStep conv config) (Some acc) fields = None.
Proof.
  induction fields as [|x fields IH]; intros acc f Hin Hnone.
  - by apply elem_of_nil in Hin.
  - cbn [foldl]. apply elem_of_cons in Hin as [->|Hin].
    + unfold fieldStep at 2. cbn. rewrite Hnone. cbn.
      apply foldl_fieldStep_None.
    + unfold fieldStep at 2. cbn.
      destruct (conv (nullish (get config x) (VArr []))); cbn.
      * by apply (IH _ f).
      * apply foldl_fieldStep_None.
Qed.

Lemma serializeConfig_fieldStep config :
  App.serializeConfig config
  = foldl (fieldStep spread config) (Some config) App.SET_CONFIG_FIELDS.
Proof. reflexivity. Qed.

Lemma rehydrate_fieldStep config :
  Worker.rehydrate config
  = foldl (fieldStep newSet config) (Some config) Worker.SET_FIELDS.
Proof. reflexivity. Qed.

Lemma same_fields : App.SET_CONFIG_FIELDS = Worker.SET_FIELDS.
Proof. reflexivity. Qed.

Lemma forallb_elem_of {A} (p : A -> bool) (l : list A) x :
  forallb p l = true → x ∈ l → p x = true.
Proof.
  intros Hall Hin. apply list_elem_of_In in Hin.
  by apply (proj1 (forallb_forall p l) Hall).
Qed.

(** What the worker makes of a well-shaped incoming [config]. *)
Lemma rehydrate_protocol incoming :
  Worker.protocol_config incoming = true →
  ∃ re, Worker.rehydrate incoming = Some re
        ∧ (∀ f, f ∈ Worker.SET_FIELDS → ∃ s, re !! f = Some (VSet s))
        ∧ (∀ f, f ∈ Worker.SET_FIELDS → incoming !! f = None →
                re !! f = Some (VSet ∅))
        ∧ (∀ f, f ∉ Worker.SET_FIELDS → re !! f = incoming !! f).
Proof.
  intros Hp. rewrite rehydrate_fieldStep.
  destruct (foldl_fieldStep_Some newSet
              (fun f => VSet (list_to_set
                 (default [] (iterate (nullish (get incoming f) (VArr []))))))
              incoming Worker.SET_FIELDS incoming) as (re & Hre & Hlk).
  { intros f Hf. pose proof (forallb_elem_of _ _ _ Hp Hf) as Hshape.
    cbn beta in Hshape. unfold get.
    destruct (incoming !! f) as [[] |]; try discriminate; reflexivity. }
  exists re. split; [done|]. repeat split.
  - intros f Hf. rewrite Hlk, decide_True by done. eauto.
  - intros f Hf Hnone. rewrite Hlk, decide_True by done.
    unfold get. rewrite Hnone. reflexivity.
  - intros f Hf. by rewrite Hlk, decide_False.
Qed.

(** C5. For a configuration whose nine Set fields hold Sets (or are not
    there), [serializeConfig] succeeds and turns them into arrays, the worker
    rehydrates those arrays into Sets with exactly the original elements (the
    empty Set for a field the configuration did not have), and leaves every
    other field as it was; and for any incoming [config] of the protocol's
    shape a field that is absent rehydrates to the empty Set. *)
Theorem serialize_rehydrate_sets (config incoming : object) :
  App.set_valued config = true →
  Worker.protocol_config incoming = true →
  (∃ out re,
      App.serializeConfig config = Some out
      ∧ Worker.rehydrate out = Some re
      ∧ (∀ f, f ∈ Worker.SET_FIELDS →
              out !! f = Some (VArr (elements (setOf (get config f))))
              ∧ re !! f = Some (VSet (setOf (get config f))))
      ∧ (∀ f, f ∉ Worker.SET_FIELDS → re !! f = config !! f))
  ∧ (∃ re,
      Worker.rehydrate incoming = Some re
      ∧ ∀ f, f ∈ Worker.SET_FIELDS → incoming !! f = None →
             re !! f = Some (VSet ∅)).
Proof.
  intros Hset Hproto. split.
  - rewrite serializeConfig_fieldStep, same_fields.
    destruct (foldl_fieldStep_Some spread
                (fun f => VArr (elements (setOf (get config f))))
                config Worker.SET_FIELDS config) as (out & Hout & Hlk).
    { intros f Hf. rewrite <- same_fields in Hf.
      pose proof (forallb_elem_of _ _ _ Hset Hf) as Hshape.
      cbn beta in Hshape. unfold get.
      destruct (config !! f) as [[] |]; try discriminate; cbn.
      - reflexivity.
      - by rewrite elements_empty. }
    exists out. rewrite rehydrate_fieldStep.
    destruct (foldl_fieldStep_Some newSet
                (fun f => VSet (setOf (get config f)))
                out Worker.SET_FIELDS out) as (re & Hre & Hlk').
    { intros f Hf. unfold get at 1. rewrite Hlk, decide_True by done.
      cbn. by rewrite list_to_set_elements_L. }
    exists re. repeat split; try done.
    + rewrite Hlk. by rewrite decide_True.
    + rewrite Hlk'. by rewrite decide_True.
    + intros f Hf. rewrite Hlk', decide_False by done.
      by rewrite Hlk, decide_False.
  - destruct (rehydrate_protocol incoming Hproto) as (re & Hre & _ & Habs & _).
    exists re. split; [done|]. exact Habs.
Qed.

Lemma serialize_rehydrate_sets_witness :
  App.set_valued Demo.config = true
  ∧ Worker.protocol_config Demo.incoming = true
  ∧ ((∃ out re,
        App.serializeConfig Demo.config = Some out
        ∧ Worker.rehydrate out = Some re
        ∧ (∀ f, f ∈ Worker.SET_FIELDS →
                out !! f = Some (VArr (elements (setOf (get Demo.config f))))
                ∧ re !! f = Some (VSet (setOf (get Demo.config f))))
        ∧ (∀ f, f ∉ Worker.SET_FIELDS → re !! f = Demo.config !! f))
     ∧ (∃ re,
        Worker.rehydrate Demo.incoming = Some re
        ∧ ∀ f, f ∈ Worker.SET_FIELDS → Demo.incoming !! f = None →
               re !! f = Some (VSet ∅))).
Proof.
  split; [vm_compute; reflexivity|].
  split; [vm_compute; reflexivity|].
  apply (serialize_rehydrate_sets Demo.config Demo.incoming);
    vm_compute; reflexivity.
Defined.

End BoundaryFacts.

Module WorkerFacts.
Import Worker.

Section Protocol.
Context {Deck Results : Type}.
Variable monteCarlo : Deck -> object -> @run Results.

Lemma filter_terminal_progress deckId (calls : list (nat * nat)) :
  List.filter (@is_terminal Results)
    ((fun p => PROGRESS deckId (fst p) (snd p)) <$> calls) = [].
Proof. induction calls as [|c calls IH]; [done | exact IH]. Qed.

Lemma filter_result_progress deckId (calls : list (nat * nat)) :
  List.filter (@is_result Results)
    ((fun p => PROGRESS deckId (fst p) (snd p)) <$> calls) = [].
Proof. induction calls as [|c calls IH]; [done | exact IH]. Qed.

Lemma filter_error_progress deckId (calls : list (nat * nat)) :
  List.filter (@is_error Results)
    ((fun p => PROGRESS deckId (fst p) (snd p)) <$> calls) = [].
Proof. induction calls as [|c calls IH]; [done | exact IH]. Qed.

(** A message of another type is ignored. *)
Lemma onmessage_not_run (data : in_msg) :
  msg_type data ≠ "RUN" → onmessage monteCarlo data = Returned [].
Proof. intros Hne. unfold onmessage. by rewrite decide_False. Qed.

(** The rehydration is not inside the [try]: a field that cannot be
    iterated makes the handler die before anything is posted. *)
Lemma onmessage_uncaught (data : in_msg) f :
  msg_type data = "RUN" → f ∈ SET_FIELDS →
  newSet (nullish (get (msg_config data) f) (VArr [])) = None →
  onmessage monteCarlo data = Uncaught [].
Proof.
  intros Hrun Hf Hnone. unfold onmessage. rewrite decide_True by done.
  rewrite BoundaryFacts.rehydrate_fieldStep.
  by rewrite (BoundaryFacts.foldl_fieldStep_fail _ _ _ _ f Hf Hnone).
Qed.

(** C4 (amended). For a RUN message whose [config] has the documented
    shape (an array, or nothing, under each of the nine fields) the handler
    returns having posted the PROGRESS messages of the run followed by one
    last message, the only terminal one: RESULT with the results when
    [monteCarlo] returned; ERROR with [err.message], or with [String(err)]
    when there is none, when it threw a value other than [null] and
    [undefined]; never both. *)
Theorem onmessage_one_terminal (data : in_msg) :
  msg_type data = "RUN" →
  protocol_config (msg_config data) = true →
  ∃ rehydrated,
    rehydrate (msg_config data) = Some rehydrated
    ∧ let r := monteCarlo (msg_deckToParse data) rehydrated in
      let progress :=
        (fun p => PROGRESS (msg_deckId data) (fst p) (snd p))
          <$> progress_calls r in
      let posted := posted_of (onmessage monteCarlo data) in
      (∀ results, outcome r = inl results →
         onmessage monteCarlo data
         = Returned (progress ++ [RESULT (msg_deckId data) results])
         ∧ List.filter is_terminal posted
           = [RESULT (msg_deckId data) results]
         ∧ List.filter is_error posted = [])
      ∧ (∀ message text, outcome r = inr (Thrown message text) →
           onmessage monteCarlo data
           = Returned (progress
                       ++ [ERROR (msg_deckId data) (default text message)])
           ∧ List.filter is_terminal posted
             = [ERROR (msg_deckId data) (default text message)]
           ∧ List.filter is_result posted = []).
Proof.
  intros Hrun Hproto.
  destruct (BoundaryFacts.rehydrate_protocol _ Hproto) as (re & Hre & _).
  exists re. split; [done|]. cbn zeta.
  unfold onmessage. rewrite decide_True by done. rewrite Hre.
  split.
  - intros results ->. cbn [terminalOf posted_of]. split; [done|].
    rewrite !List.filter_app, filter_terminal_progress,
      filter_error_progress. by cbn.
  - intros message text ->. cbn [terminalOf errorText fmap option_fmap
      option_map posted_of]. split; [done|].
    rewrite !List.filter_app, filter_terminal_progress,
      filter_result_progress. by cbn.
Qed.

End Protocol.

Lemma onmessage_one_terminal_witness :
  msg_type Demo.empty_msg = "RUN"
  ∧ protocol_config (msg_config Demo.empty_msg) = true
  ∧ onmessage Demo.engine Demo.empty_msg
    = Returned [ERROR "B" "Deck is empty"]
  ∧ List.filter is_terminal (posted_of (onmessage Demo.engine Demo.empty_msg))
    = [ERROR "B" "Deck is empty"]
  ∧ List.filter is_result (posted_of (onmessage Demo.engine Demo.empty_msg))
    = [].
Proof.
  assert (msg_type Demo.empty_msg = "RUN") as Hrun by reflexivity.
  assert (protocol_config (msg_config Demo.empty_msg) = true) as Hp
    by (vm_compute; reflexivity).
  split; [exact Hrun|]. split; [exact Hp|].
  destruct (onmessage_one_terminal Demo.engine Demo.empty_msg Hrun Hp)
    as (re & Hre & _ & Herr).
  apply (Herr (Some "Deck is empty") "Error: Deck is empty").
  reflexivity.
Defined.

(** The claim as written fails on a RUN message whose [config] holds a
    number where the protocol has an array: [new Set(5)] throws before the
    [try], and no message is posted for the run, terminal or other. *)
Lemma onmessage_no_terminal :
  msg_type Demo.bad_msg = "RUN"
  ∧ get (msg_config Demo.bad_msg) "selectedKeyCards" = VNum 5
  ∧ onmessage Demo.engine Demo.bad_msg = Uncaught []
  ∧ length (List.filter is_terminal
              (posted_of (onmessage Demo.engine Demo.bad_msg))) ≠ 1%nat.
Proof.
  split; [reflexivity|]. split; [vm_compute; reflexivity|].
  split; [vm_compute; reflexivity|]. vm_compute. discriminate.
Qed.

(** The run of the sample message: two PROGRESS messages, then RESULT. *)
Example onmessage_run_msg :
  onmessage Demo.engine Demo.run_msg
  = Returned [PROGRESS "A" 250 500; PROGRESS "A" 500 500;
              RESULT "A" ["Forest"; "Sol Ring"]].
Proof. vm_compute. reflexivity. Qed.

(** A number where an array belongs: nothing is posted at all. *)
Example onmessage_bad_msg :
  onmessage Demo.engine Demo.bad_msg = Uncaught [].
Proof. vm_compute. reflexivity. Qed.

End WorkerFacts.

Module DeckSlotFacts.
Import DeckSlot.

Section RoundTrip.
Context {ParsedDeck Results Override : Type}.
Implicit Type sl : @slot ParsedDeck Results Override.

(** C9. Serialising a slot and building a slot from the outcome gives back
    the deck text, the eight include flags, the eight disabled Sets and the
    selected key cards (Sets with the same elements) and the override maps
    (mana, draw, treasure, ritual); [parsedDeck] and [simulationResults]
    are null. *)
Theorem default_serialize sl :
  @defaultDeckSlot ParsedDeck Results Override (serializeDeckSlot sl)
  = {| deckText := deckText sl;
       parsedDeck := None;
       selectedKeyCards := selectedKeyCards sl;
       includeArtifacts := includeArtifacts sl;
       disabledArtifacts := disabledArtifacts sl;
       includeCreatures := includeCreatures sl;
       disabledCreatures := disabledCreatures sl;
       manaOverrides := manaOverrides sl;
       includeExploration := includeExploration sl;
       disabledExploration := disabledExploration sl;
       includeRampSpells := includeRampSpells sl;
       disabledRampSpells := disabledRampSpells sl;
       includeRituals := includeRituals sl;
       disabledRituals := disabledRituals sl;
       includeCostReducers := includeCostReducers sl;
       disabledCostReducers := disabledCostReducers sl;
       includeDrawSpells := includeDrawSpells sl;
       disabledDrawSpells := disabledDrawSpells sl;
       drawOverrides := drawOverrides sl;
       includeTreasures := includeTreasures sl;
       disabledTreasures := disabledTreasures sl;
       treasureOverrides := treasureOverrides sl;
       ritualOverrides := ritualOverrides sl;
       simulationResults := None |}.
Proof.
  unfold defaultDeckSlot, serializeDeckSlot. cbn.
  by rewrite !list_to_set_elements_L.
Qed.

(** With nothing saved every category is included and every Set and map is
    empty. *)
Lemma default_noSaved :
  @defaultDeckSlot ParsedDeck Results Override noSaved
  = {| deckText := "";
       parsedDeck := None;
       selectedKeyCards := ∅;
       includeArtifacts := true;
       disabledArtifacts := ∅;
       includeCreatures := true;
       disabledCreatures := ∅;
       manaOverrides := ∅;
       includeExploration := true;
       disabledExploration := ∅;
       includeRampSpells := true;
       disabledRampSpells := ∅;
       includeRituals := true;
       disabledRituals := ∅;
       includeCostReducers := true;
       disabledCostReducers := ∅;
       includeDrawSpells := true;
       disabledDrawSpells := ∅;
       drawOverrides := ∅;
       includeTreasures := true;
       disabledTreasures := ∅;
       treasureOverrides := ∅;
       ritualOverrides := ∅;
       simulationResults := None |}.
Proof. reflexivity. Qed.

End RoundTrip.

End DeckSlotFacts.

Module ChartFacts.
Import ChartData.

Lemma roundHalfAway_nonneg (q : Q) : (0 <= q)%Q → (0 <= roundHalfAway q)%Z.
Proof.
  intros Hq. unfold roundHalfAway.
  rewrite (proj2 (Qle_bool_iff 0 q) Hq).
  change 0%Z with (Qfloor 0). apply Qfloor_resp_le.
  apply Qle_trans with q; [done|].
  rewrite <- (Qplus_0_r q) at 1. apply Qplus_le_r. discriminate.
Qed.

(** Rounding never takes a non-negative number below zero. *)
Lemma safeToFixed_nonneg (q : Q) (d : nat) :
  (0 <= q)%Q → (0 <= safeToFixed (Some q) d)%Q.
Proof.
  intros Hq. unfold safeToFixed. destruct d as [|d].
  - pose proof (roundHalfAway_nonneg q Hq) as Hz.
    unfold Qle. cbn. lia.
  - rewrite Qred_correct.
    assert (0 <= roundHalfAway (q * inject_Z (Z.pos (pow10 (S d)))))%Z as Hz.
    { apply roundHalfAway_nonneg. apply Qmult_le_0_compat; [done|].
      unfold Qle. cbn. lia. }
    unfold Qle. cbn. lia.
Qed.

Lemma lo_nonneg (avg sd : Q) : (0 <= lo avg sd)%Q.
Proof. apply safeToFixed_nonneg, Q.le_max_l. Qed.

(** What the unit tests of math.js expect of [safeToFixed]. *)
Example safeToFixed_tests :
  safeToFixed None 2 = 0%Q
  ∧ safeToFixed (Some (314159 # 100000)%Q) 2 = (157 # 50)%Q
  ∧ safeToFixed (Some (314159 # 100000)%Q) 4 = (3927 # 1250)%Q
  ∧ safeToFixed (Some (314159 # 100000)%Q) 0 = 3%Q
  ∧ safeToFixed (Some 5%Q) 2 = 5%Q
  ∧ safeToFixed (Some (-2567 # 1000)%Q) 2 = (-257 # 100)%Q
  ∧ safeToFixed (Some (1 # 1000)%Q) 2 = 0%Q
  ∧ safeToFixed (Some (1 # 1000)%Q) 3 = (1 # 1000)%Q.
Proof. vm_compute. repeat split; reflexivity. Qed.

Lemma rows_length {A} (f : nat -> A) (turns : nat) :
  length (f <$> seq 0 turns) = turns.
Proof. by rewrite length_fmap, length_seq. Qed.

Lemma rows_lookup {A} (f : nat -> A) (turns i : nat) :
  (i < turns)%nat → (f <$> seq 0 turns) !! i = Some (f i).
Proof.
  intros Hi. rewrite list_lookup_fmap, lookup_seq_lt by done. reflexivity.
Qed.

(** A missing array, an index past its end and a hole all read as 0. *)
Lemma orZero_missing (arr : option (list num)) (i : nat) :
  arr = None ∨ (∃ l, arr = Some l ∧ (l !! i = None ∨ l !! i = Some None)) →
  orZero (at_ arr i) = 0%Q.
Proof.
  intros [-> | (l & -> & [Hl | Hl])]; [done | |]; unfold at_; cbn;
    by rewrite Hl.
Qed.

Lemma assign_ne (key k : string) (v : Q) (row : keyCardRow) :
  key ≠ k → assign key v row !! k = row !! k.
Proof.
  intros Hne. unfold assign. case_decide; [done|]. by apply lookup_insert_ne.
Qed.

Lemma assign_eq (key : string) (v : Q) (row : keyCardRow) :
  key ≠ "__proto__" → assign key v row !! key = Some v.
Proof.
  intros Hne. unfold assign. rewrite decide_False by done.
  apply lookup_insert_eq.
Qed.

(** Writing columns leaves alone every key that is no column's label. *)
Lemma addColumns_other label o i (row : keyCardRow) k :
  (∀ name, is_Some (o !! name) → label name ≠ k) →
  addColumns label o i row !! k = row !! k.
Proof.
  intros Hk. unfold addColumns.
  assert (∀ p, p ∈ map_to_list o → label (fst p) ≠ k) as Hl.
  { intros [name arr] Hp. apply Hk. apply elem_of_map_to_list in Hp. eauto. }
  clear Hk. revert row. induction (map_to_list o) as [|p l IH]; intros row.
  - done.
  - cbn [foldl]. rewrite IH.
    + apply assign_ne. apply Hl, list_elem_of_here.
    + intros q Hq. by apply Hl, list_elem_of_further.
Qed.

(** A card's column holds its rounded playability. *)
Lemma addColumns_column o i (row : keyCardRow) name arr :
  name ≠ "__proto__" →
  o !! name = Some arr →
  addColumns id o i row !! name = Some (safeToFixed (mjoin (arr !! i)) 1).
Proof.
  intros Hproto Hname. unfold addColumns.
  apply elem_of_map_to_list in Hname.
  pose proof (NoDup_fst_map_to_list o) as Hnd.
  revert row. induction (map_to_list o) as [|p l IH]; intros row.
  - by apply elem_of_nil in Hname.
  - cbn [foldl]. rewrite fmap_cons in Hnd. apply NoDup_cons in Hnd as [Hp Hnd].
    apply elem_of_cons in Hname as [<- | Hin].
    + clear IH. cbn [fst snd id].
      assert (∀ r0 : keyCardRow,
        foldl (fun row p => assign (id (fst p))
                                   (safeToFixed (mjoin (snd p !! i)) 1) row)
              r0 l !! name = r0 !! name) as Hstable.
      { clear Hnd. cbn [fst] in Hp. induction l as [|q l IHl]; intros r0; [done|].
        cbn [foldl]. rewrite IHl.
        - apply assign_ne. intros Heq. apply Hp.
          rewrite fmap_cons. unfold id in Heq. rewrite <- Heq.
          apply list_elem_of_here.
        - intros Hin. apply Hp. rewrite fmap_cons.
          by apply list_elem_of_further. }
      rewrite Hstable. by apply assign_eq.
    + by apply IH.
Qed.

Lemma string_length_app (s1 s2 : string) :
  String.length (s1 +:+ s2) = (String.length s1 + String.length s2)%nat.
Proof.
  induction s1 as [|a s1 IH]; [done|].
  change (String a s1 +:+ s2) with (String a (s1 +:+ s2)).
  cbn [String.length]. by rewrite IH.
Qed.

(** No burst column is called "turn": its label is at least nine
    characters long. *)
Lemma burstLabel_not_turn name : burstLabel name ≠ "turn".
Proof.
  unfold burstLabel. intros Heq.
  apply (f_equal String.length) in Heq.
  rewrite string_length_app in Heq. cbn in Heq. lia.
Qed.

Lemma bandRowAt_facts avgs sds i :
  br_turn (bandRowAt avgs sds i) = (i + 1)%nat
  ∧ br_value (bandRowAt avgs sds i) = safeToFixed (Some (orZero (at_ avgs i))) 2
  ∧ br_lo (bandRowAt avgs sds i)
    = safeToFixed (Some (Qmax 0 (orZero (at_ avgs i) - orZero (at_ sds i)))) 2
  ∧ (0 <= br_lo (bandRowAt avgs sds i))%Q.
Proof. repeat split. apply lo_nonneg. Qed.

Lemma keyCardRowAt_turn r i :
  (∀ o, keyCardPlayability r = Some o → o !! "turn" = None) →
  keyCardRowAt r i !! "turn" = Some (inject_Z (Z.of_nat (i + 1))).
Proof.
  intros Hfree. unfold keyCardRowAt.
  set (row0 := ({[ "turn" := inject_Z (Z.of_nat (i + 1)) ]} : keyCardRow)).
  assert (match keyCardPlayability r with
          | Some o => addColumns id o i row0
          | None => row0
          end !! "turn" = Some (inject_Z (Z.of_nat (i + 1)))) as Hrow1.
  { destruct (keyCardPlayability r) as [o|] eqn:Ho.
    - rewrite addColumns_other; [apply lookup_singleton_eq|].
      intros name [arr Harr] Heq. unfold id in Heq. subst name.
      rewrite (Hfree o eq_refl) in Harr. discriminate.
    - apply lookup_singleton_eq. }
  destruct (hasBurstCards r); [|done].
  destruct (keyCardPlayabilityBurst r) as [b|]; [|done].
  rewrite addColumns_other; [done|].
  intros name _. apply burstLabel_not_turn.
Qed.

Lemma keyCardRowAt_column r i o name arr :
  name ≠ "__proto__" →
  keyCardPlayability r = Some o → o !! name = Some arr →
  (hasBurstCards r = true → ∀ b, keyCardPlayabilityBurst r = Some b →
     ∀ n, is_Some (b !! n) → burstLabel n ≠ name) →
  keyCardRowAt r i !! name = Some (safeToFixed (mjoin (arr !! i)) 1).
Proof.
  intros Hproto Ho Hname Hburst. unfold keyCardRowAt. rewrite Ho.
  destruct (hasBurstCards r); [|by apply addColumns_column].
  destruct (keyCardPlayabilityBurst r) as [b|]; [|by apply addColumns_column].
  rewrite addColumns_other; [by apply addColumns_column|].
  intros n Hn. by apply (Hburst eq_refl b eq_refl).
Qed.

(** What [prepareChartData] does on every input: null for null results;
    otherwise six arrays of length [turns]; the [i]-th row of [landsData],
    [manaByColorData], [lifeLossData], [cardsDrawnData] and [treasureData]
    carries [turn = i + 1], and so does the [i]-th row of [keyCardsData]
    when no tracked key card is itself named "turn"; a statistic that is
    missing counts as 0; each Lo value is the rounded
    [max(0, mean - stdDev)] and is not negative. *)
Lemma prepareChartData_rows (r : results) (turns : nat) :
  (∃ cd,
      prepareChartData (Some r) turns = Some cd
      ∧ (length (landsData cd) = turns ∧ length (manaByColorData cd) = turns
         ∧ length (lifeLossData cd) = turns ∧ length (cardsDrawnData cd) = turns
         ∧ length (treasureData cd) = turns ∧ length (keyCardsData cd) = turns)
      ∧ ∀ i, (i < turns)%nat →
        (∃ row, landsData cd !! i = Some row
           ∧ lr_turn row = (i + 1)%nat
           ∧ TotalLands row
             = safeToFixed (Some (orZero (at_ (landsPerTurn r) i))) 2
           ∧ UntappedLands row
             = safeToFixed (Some (orZero (at_ (untappedLandsPerTurn r) i))) 2
           ∧ TotalLandsLo row
             = safeToFixed (Some (Qmax 0
                 (orZero (at_ (landsPerTurn r) i)
                  - orZero (at_ (landsPerTurnStdDev r) i)))) 2
           ∧ UntappedLandsLo row
             = safeToFixed (Some (Qmax 0
                 (orZero (at_ (untappedLandsPerTurn r) i)
                  - orZero (at_ (untappedLandsPerTurnStdDev r) i)))) 2
           ∧ (0 <= TotalLandsLo row)%Q ∧ (0 <= UntappedLandsLo row)%Q)
        ∧ (∃ row, manaByColorData cd !! i = Some row
           ∧ mr_turn row = (i + 1)%nat
           ∧ TotalMana row
             = safeToFixed (Some (orZero (at_ (totalManaPerTurn r) i))) 2
           ∧ TotalManaLo row
             = safeToFixed (Some (Qmax 0
                 (orZero (at_ (totalManaPerTurn r) i)
                  - orZero (at_ (totalManaPerTurnStdDev r) i)))) 2
           ∧ (0 <= TotalManaLo row)%Q
           ∧ mW row = safeToFixed (colorAt r i cW) 2
           ∧ mU row = safeToFixed (colorAt r i cU) 2
           ∧ mB row = safeToFixed (colorAt r i cB) 2
           ∧ mR row = safeToFixed (colorAt r i cR) 2
           ∧ mG row = safeToFixed (colorAt r i cG) 2)
        ∧ (∃ row, lifeLossData cd !! i = Some row
           ∧ br_turn row = (i + 1)%nat
           ∧ br_value row
             = safeToFixed (Some (orZero (at_ (lifeLossPerTurn r) i))) 2
           ∧ br_lo row
             = safeToFixed (Some (Qmax 0
                 (orZero (at_ (lifeLossPerTurn r) i)
                  - orZero (at_ (lifeLossPerTurnStdDev r) i)))) 2
           ∧ (0 <= br_lo row)%Q)
        ∧ (∃ row, cardsDrawnData cd !! i = Some row
           ∧ br_turn row = (i + 1)%nat
           ∧ br_value row
             = safeToFixed (Some (orZero (at_ (cardsDrawnPerTurn r) i))) 2
           ∧ br_lo row
             = safeToFixed (Some (Qmax 0
                 (orZero (at_ (cardsDrawnPerTurn r) i)
                  - orZero (at_ (cardsDrawnPerTurnStdDev r) i)))) 2
           ∧ (0 <= br_lo row)%Q)
        ∧ (∃ row, treasureData cd !! i = Some row
           ∧ br_turn row = (i + 1)%nat
           ∧ br_value row
             = safeToFixed (Some (orZero (at_ (treasurePerTurn r) i))) 2
           ∧ br_lo row
             = safeToFixed (Some (Qmax 0
                 (orZero (at_ (treasurePerTurn r) i)
                  - orZero (at_ (treasurePerTurnStdDev r) i)))) 2
           ∧ (0 <= br_lo row)%Q)
        ∧ (∃ row, keyCardsData cd !! i = Some row
           ∧ ((∀ o, keyCardPlayability r = Some o → o !! "turn" = None) →
              row !! "turn" = Some (inject_Z (Z.of_nat (i + 1))))
           ∧ (keyCardPlayability r = None →
              row !! "turn" = Some (inject_Z (Z.of_nat (i + 1))))
           ∧ (∀ o name arr,
                name ≠ "__proto__" →
                keyCardPlayability r = Some o → o !! name = Some arr →
                (hasBurstCards r = true →
                 ∀ b, keyCardPlayabilityBurst r = Some b →
                      ∀ n, is_Some (b !! n) → burstLabel n ≠ name) →
                row !! name = Some (safeToFixed (mjoin (arr !! i)) 1))))
  ∧ (∀ (arr : option (list num)) (i : nat),
       arr = None
       ∨ (∃ l, arr = Some l ∧ (l !! i = None ∨ l !! i = Some None)) →
       orZero (at_ arr i) = 0%Q)
  ∧ (∀ d, safeToFixed None d = 0%Q)
  ∧ prepareChartData None turns = None.
Proof.
  split; [|split; [apply orZero_missing | split; reflexivity]].
  eexists. split; [reflexivity|]. cbn [landsData manaByColorData lifeLossData
    cardsDrawnData treasureData keyCardsData].
  split; [by rewrite !rows_length|].
  intros i Hi. rewrite !rows_lookup by done.
  split; [|split; [|split; [|split; [|split]]]].
  - eexists. split; [reflexivity|]. repeat split; apply lo_nonneg.
  - eexists. split; [reflexivity|]. repeat split; apply lo_nonneg.
  - eexists. split; [reflexivity|]. apply bandRowAt_facts.
  - eexists. split; [reflexivity|]. apply bandRowAt_facts.
  - eexists. split; [reflexivity|]. apply bandRowAt_facts.
  - eexists. split; [reflexivity|]. split; [|split].
    + apply keyCardRowAt_turn.
    + intros Hnone. apply keyCardRowAt_turn. intros o Ho. congruence.
    + intros o name arr. apply keyCardRowAt_column.
Qed.

Lemma prepareChartData_rows_witness :
  ∃ cd, prepareChartData (Some Demo.sim) 3 = Some cd
        ∧ length (keyCardsData cd) = 3%nat
        ∧ ∃ row, keyCardsData cd !! 1%nat = Some row
                 ∧ row !! "turn" = Some 2%Q.
Proof.
  destruct (prepareChartData_rows Demo.sim 3) as [(cd & Hcd & Hlen & Hrows) _].
  exists cd. split; [exact Hcd|]. split; [apply Hlen|].
  destruct (Hrows 1%nat ltac:(lia))
    as (_ & _ & _ & _ & _ & row & Hrow & Hturn & _).
  exists row. split; [exact Hrow|].
  apply Hturn. intros o [= <-]. vm_compute. reflexivity.
Defined.

(** C10. The row of [keyCardsData] is one object for the turn and for the
    columns, and nothing guards the key "turn": with a tracked key card of
    that name, the first row carries the card's rounded playability, 50,
    where the turn number 1 belongs (the five sibling arrays keep
    [turn = i + 1]). *)
Theorem prepareChartData_turn_overwritten :
  ∃ cd row, prepareChartData (Some Demo.clash) 1 = Some cd
            ∧ length (keyCardsData cd) = 1%nat
            ∧ keyCardsData cd !! 0%nat = Some row
            ∧ row !! "turn" = Some 50%Q
            ∧ row !! "turn" ≠ Some (inject_Z (Z.of_nat (0 + 1))).
Proof.
  eexists. eexists. split; [reflexivity|]. split; [reflexivity|].
  split; [reflexivity|]. split; [vm_compute; reflexivity|].
  vm_compute. discriminate.
Qed.

End ChartFacts.

Module ManaFacts.
Import Engine.


Section Pool.
Variable currentTurn : Z.






End Pool.


(** The turn a creature enters its amount is [base], but it is summoning
    sick and adds nothing to the pool. *)
Example marwyn_enters :
  sourceAmount Demo.marwyn 2 = 1%Z
  ∧ total (calculateManaAvailability [Demo.marwyn] 2) = 0%Z.
Proof. split; reflexivity. Qed.

End ManaFacts.

Module LandFacts.
Import Engine.

Section Selection.
Variable canPayActivation : card -> list permanent -> bool.
Variable entersUntapped : card -> list permanent -> bool.

Abbreviation selectBestLand := (selectBestLand canPayActivation entersUntapped).
Abbreviation landPriority := (landPriority canPayActivation entersUntapped).
Abbreviation playableFetch := (playableFetch canPayActivation).
Abbreviation untappedNonBounce := (untappedNonBounce entersUntapped).

Lemma firstIn_Some hand test i c :
  firstIn hand test = Some (i, c) →
  hand !! i = Some c ∧ test c = true
  ∧ ∀ j y, hand !! j = Some y → (j < i)%nat → test y = false.
Proof.
  unfold firstIn. intros (Hi & Ht & Hmin)%list_find_Some.
  split; [done|]. split; [done|]. intros j y Hj Hlt.
  specialize (Hmin j y Hj Hlt). by destruct (test y).
Qed.

Lemma firstIn_None hand test c :
  firstIn hand test = None → c ∈ hand → test c = false.
Proof.
  unfold firstIn. intros Hall%list_find_None Hc.
  rewrite Forall_forall in Hall. specialize (Hall c Hc).
  by destruct (test c).
Qed.

Lemma firstIn_is_Some hand test c :
  c ∈ hand → test c = true → is_Some (firstIn hand test).
Proof. intros Hc Ht. by apply (list_find_elem_of _ _ c). Qed.

(** The four classes, spelled out. *)
Lemma landPriority_classes battlefield c :
  (landPriority battlefield c = None ↔ isLand c = false)
  ∧ (landPriority battlefield c = Some 1%nat ↔
       isLand c = true ∧ isFetch c = true
       ∧ canPayActivation c battlefield = true)
  ∧ (landPriority battlefield c = Some 2%nat ↔
       playableFetch battlefield c = false
       ∧ isLand c = true ∧ isBounce c = false
       ∧ entersUntapped c battlefield = true)
  ∧ (landPriority battlefield c = Some 3%nat ↔
       playableFetch battlefield c = false
       ∧ untappedNonBounce battlefield c = false
       ∧ isLand c = true ∧ isBounce c = true
       ∧ hasNonBounceLand battlefield = true)
  ∧ (landPriority battlefield c = Some 4%nat ↔
       isLand c = true
       ∧ playableFetch battlefield c = false
       ∧ untappedNonBounce battlefield c = false
       ∧ playableBounce battlefield c = false).
Proof.
  unfold Engine.landPriority, Engine.playableFetch, Engine.untappedNonBounce,
    playableBounce.
  destruct (isLand c), (isFetch c), (isBounce c),
    (canPayActivation c battlefield), (entersUntapped c battlefield),
    (hasNonBounceLand battlefield); cbn; intuition congruence.
Qed.

Ltac class_cases bf c :=
  unfold Engine.landPriority in *;
  destruct (isLand c) eqn:?; cbn [negb] in *; try discriminate;
  destruct (playableFetch bf c) eqn:?; try discriminate;
  destruct (untappedNonBounce bf c) eqn:?; try discriminate;
  destruct (playableBounce bf c) eqn:?; try discriminate.

Lemma test_isLand battlefield c :
  (playableFetch battlefield c = true → isLand c = true)
  ∧ (untappedNonBounce battlefield c = true → isLand c = true)
  ∧ (playableBounce battlefield c = true → isLand c = true).
Proof.
  unfold Engine.playableFetch, Engine.untappedNonBounce, playableBounce.
  destruct (isLand c); cbn; intuition congruence.
Qed.

(** C8. The land chosen from the hand is one of the highest priority
    class that the hand has a land of (fetch lands whose activation can be
    paid; untapped non-bounce lands; bounce lands when a non-bounce land is
    in play; any other land), and the first such land in hand order; no
    land is chosen only when the hand holds none. *)
Theorem selectBestLand_priority (hand : list card)
    (battlefield : list permanent) :
  (selectBestLand hand battlefield = None ↔
     ∀ c, c ∈ hand → isLand c = false)
  ∧ ∀ i c, selectBestLand hand battlefield = Some (i, c) →
      hand !! i = Some c
      ∧ ∃ k, landPriority battlefield c = Some k
        ∧ ∀ j c' k', hand !! j = Some c' →
            landPriority battlefield c' = Some k' →
            (k < k')%nat ∨ (k = k' ∧ (i ≤ j)%nat).
Proof.
  unfold Engine.selectBestLand.
  destruct (firstIn hand (playableFetch battlefield))
    as [[i1 c1]|] eqn:H1.
  { split.
    - split; [done|]. intros Hnone. exfalso.
      apply firstIn_Some in H1 as (Hi & Ht & _).
      apply (test_isLand battlefield) in Ht.
      rewrite (Hnone c1) in Ht; [done|]. by eapply list_elem_of_lookup_2.
    - intros i c [= <- <-]. apply firstIn_Some in H1 as (Hi & Ht & Hmin).
      split; [done|]. exists 1%nat. split.
      + pose proof (proj1 (test_isLand battlefield c1) Ht).
        unfold Engine.landPriority. by rewrite H, Ht.
      + intros j c' k' Hj Hk'.
        destruct (decide (j < i1)%nat) as [Hlt|Hge].
        * specialize (Hmin j c' Hj Hlt). class_cases battlefield c'.
          all: injection Hk' as <-; lia.
        * class_cases battlefield c'. all: injection Hk' as <-; lia. }
  destruct (firstIn hand (untappedNonBounce battlefield))
    as [[i2 c2]|] eqn:H2.
  { split.
    - split; [done|]. intros Hnone. exfalso.
      apply firstIn_Some in H2 as (Hi & Ht & _).
      apply (test_isLand battlefield) in Ht.
      rewrite (Hnone c2) in Ht; [done|]. by eapply list_elem_of_lookup_2.
    - intros i c [= <- <-]. apply firstIn_Some in H2 as (Hi & Ht & Hmin).
      pose proof (firstIn_None _ _ c2 H1 (list_elem_of_lookup_2 _ _ _ Hi)) as Hf.
      split; [done|]. exists 2%nat. split.
      + pose proof (proj1 (proj2 (test_isLand battlefield c2)) Ht).
        unfold Engine.landPriority. by rewrite H, Hf, Ht.
      + intros j c' k' Hj Hk'.
        pose proof (firstIn_None _ _ c' H1 (list_elem_of_lookup_2 _ _ _ Hj)).
        destruct (decide (j < i2)%nat) as [Hlt|Hge].
        * specialize (Hmin j c' Hj Hlt). class_cases battlefield c'.
          all: injection Hk' as <-; lia.
        * class_cases battlefield c'. all: injection Hk' as <-; lia. }
  destruct (firstIn hand (playableBounce battlefield))
    as [[i3 c3]|] eqn:H3.
  { split.
    - split; [done|]. intros Hnone. exfalso.
      apply firstIn_Some in H3 as (Hi & Ht & _).
      apply (test_isLand battlefield) in Ht.
      rewrite (Hnone c3) in Ht; [done|]. by eapply list_elem_of_lookup_2.
    - intros i c [= <- <-]. apply firstIn_Some in H3 as (Hi & Ht & Hmin).
      pose proof (firstIn_None _ _ c3 H1 (list_elem_of_lookup_2 _ _ _ Hi)) as Hf.
      pose proof (firstIn_None _ _ c3 H2 (list_elem_of_lookup_2 _ _ _ Hi)) as Hu.
      split; [done|]. exists 3%nat. split.
      + pose proof (proj2 (proj2 (test_isLand battlefield c3)) Ht).
        unfold Engine.landPriority. by rewrite H, Hf, Hu, Ht.
      + intros j c' k' Hj Hk'.
        pose proof (firstIn_None _ _ c' H1 (list_elem_of_lookup_2 _ _ _ Hj)).
        pose proof (firstIn_None _ _ c' H2 (list_elem_of_lookup_2 _ _ _ Hj)).
        destruct (decide (j < i3)%nat) as [Hlt|Hge].
        * specialize (Hmin j c' Hj Hlt). class_cases battlefield c'.
          all: injection Hk' as <-; lia.
        * class_cases battlefield c'. all: injection Hk' as <-; lia. }
  split.
  - split.
    + intros Hnone c Hc. by apply (firstIn_None _ _ c Hnone).
    + intros Hnone. destruct (firstIn hand isLand) as [[i c]|] eqn:H4; [|done].
      apply firstIn_Some in H4 as (Hi & Ht & _).
      rewrite (Hnone c) in Ht; [done|]. by eapply list_elem_of_lookup_2.
  - intros i c H4. apply firstIn_Some in H4 as (Hi & Ht & Hmin).
    pose proof (firstIn_None _ _ c H1 (list_elem_of_lookup_2 _ _ _ Hi)) as Hf.
    pose proof (firstIn_None _ _ c H2 (list_elem_of_lookup_2 _ _ _ Hi)) as Hu.
    pose proof (firstIn_None _ _ c H3 (list_elem_of_lookup_2 _ _ _ Hi)) as Hb.
    split; [done|]. exists 4%nat. split.
    + unfold Engine.landPriority. by rewrite Ht, Hf, Hu, Hb.
    + intros j c' k' Hj Hk'.
      pose proof (firstIn_None _ _ c' H1 (list_elem_of_lookup_2 _ _ _ Hj)).
      pose proof (firstIn_None _ _ c' H2 (list_elem_of_lookup_2 _ _ _ Hj)).
      pose proof (firstIn_None _ _ c' H3 (list_elem_of_lookup_2 _ _ _ Hj)).
      destruct (decide (j < i)%nat) as [Hlt|Hge].
      * specialize (Hmin j c' Hj Hlt). class_cases battlefield c'.
      * class_cases battlefield c'. all: injection Hk' as <-; lia.
Qed.

End Selection.

(** A hand tried against an empty battlefield and against one with a
    Forest: the fetch land wins once it can be paid for; the bounce land is
    only a last resort while there is nothing to return. *)
Example selectBestLand_hand :
  let hand := [Demo.llanowar; Demo.growthChamber; Demo.guildgate;
               Demo.forest; Demo.woodedFoothills] in
  selectBestLand Demo.canPay Demo.untappedEntry hand []
  = Some (3%nat, Demo.forest)
  ∧ selectBestLand Demo.canPay Demo.untappedEntry
      [Demo.growthChamber; Demo.guildgate] []
    = Some (0%nat, Demo.growthChamber)
  ∧ selectBestLand Demo.canPay Demo.untappedEntry
      [Demo.guildgate; Demo.growthChamber] [Permanent Demo.forest 1 true]
    = Some (1%nat, Demo.growthChamber)
  ∧ selectBestLand Demo.canPay Demo.untappedEntry hand
      [Permanent Demo.forest 1 false]
    = Some (4%nat, Demo.woodedFoothills)
  ∧ selectBestLand Demo.canPay Demo.untappedEntry [Demo.llanowar] [] = None.
Proof. vm_compute. repeat split; reflexivity. Qed.

End LandFacts.

Module DriverFacts.
Import Engine.

Lemma countUntappedLands_le (battlefield : list permanent) :
  (countUntappedLands battlefield <= countLands battlefield)%Z.
Proof.
  unfold countUntappedLands, countLands. apply inj_le.
  induction battlefield as [|p bf IH]; [done|]. cbn [List.filter].
  destruct (isLand (permCard p)), (tapped p); cbn [andb negb length]; lia.
Qed.

Lemma sumZ_fmap_le {A} (f g : A -> Z) (l : list A) :
  (∀ x, (f x <= g x)%Z) → (sumZ (f <$> l) <= sumZ (g <$> l))%Z.
Proof.
  intros Hfg. induction l as [|x l IH]; [done|].
  rewrite !fmap_cons. unfold sumZ in *. cbn [foldr]. specialize (Hfg x). lia.
Qed.

(** Averaging over the same iterations keeps a pointwise order. *)
Lemma average_fmap_le {A} (f g : A -> Z) (l : list A) :
  (∀ x, (f x <= g x)%Z) → (average (f <$> l) <= average (g <$> l))%Q.
Proof.
  intros Hfg. destruct l as [|x l]; [done|].
  unfold average. rewrite !fmap_cons, !length_cons, !length_fmap.
  rewrite <- !fmap_cons.
  apply Qmult_le_compat_r.
  - rewrite <- Zle_Qle. by apply sumZ_fmap_le.
  - apply Qinv_le_0_compat. unfold Qle. cbn. lia.
Qed.

Lemma perIteration_le (games : list game) (t : nat) :
  (average (perIteration countUntappedLands games t)
   <= average (perIteration countLands games t))%Q.
Proof.
  unfold perIteration. apply average_fmap_le.
  intros g. apply countUntappedLands_le.
Qed.

Section Driver.
Variable playGame : list card -> object -> nat -> game.

(** C1. In the results of a run the two land statistics have one entry
    per turn, and at every turn the mean number of untapped lands is at
    most the mean number of lands. *)
Theorem untapped_le_total (deck : list card) (cfg : object)
    (res : simulationResults) :
  Worker.outcome (monteCarlo playGame deck cfg) = inl res →
  length (untappedLandsPerTurn res) = natField cfg "turns"
  ∧ length (landsPerTurn res) = natField cfg "turns"
  ∧ ∀ t, (t < natField cfg "turns")%nat →
      ∃ u l, untappedLandsPerTurn res !! t = Some u
             ∧ landsPerTurn res !! t = Some l
             ∧ (u <= l)%Q.
Proof.
  unfold monteCarlo. destruct deck as [|c deck]; [discriminate|].
  destruct (natField cfg "iterations" =? 0)%nat; [discriminate|].
  cbn [Worker.outcome]. intros [= <-].
  cbn [untappedLandsPerTurn landsPerTurn].
  rewrite !length_fmap, !length_seq. split; [done|]. split; [done|].
  intros t Ht. rewrite !list_lookup_fmap, !lookup_seq_lt by done.
  cbn [fmap option_fmap option_map]. eexists _, _.
  split; [reflexivity|]. split; [reflexivity|]. apply perIteration_le.
Qed.

Lemma natField_rehydrate (cfg re : object) (f : string) :
  Worker.rehydrate cfg = Some re → f ∉ Worker.SET_FIELDS →
  Worker.protocol_config cfg = true →
  natField re f = natField cfg f.
Proof.
  intros Hre Hf Hp.
  destruct (BoundaryFacts.rehydrate_protocol cfg Hp) as (re' & Hre' & _ & _ & Hother).
  rewrite Hre in Hre'. injection Hre' as <-.
  unfold natField, get. by rewrite (Hother f Hf).
Qed.

(** C6. With an empty deck or zero iterations [monteCarlo] throws an
    error with a message before any iteration runs: it makes no progress
    call and returns no statistics, and the worker posts that one ERROR
    message and nothing else. *)
Theorem config_error_before_loop (deck : list card) (cfg : object) :
  deck = [] ∨ natField cfg "iterations" = 0%nat →
  ∃ message,
    message ≠ ""
    ∧ Worker.progress_calls (monteCarlo playGame deck cfg) = []
    ∧ (∃ err, Worker.outcome (monteCarlo playGame deck cfg) = inr err
              ∧ Worker.err_message err = Some message)
    ∧ ∀ deckId, Worker.protocol_config cfg = true →
        Worker.onmessage (monteCarlo playGame)
          (Worker.InMsg "RUN" deckId deck cfg)
        = Worker.Returned [Worker.ERROR deckId message].
Proof.
  intros Hbad.
  assert (∃ message, message ≠ "" ∧
            ∀ cfg', natField cfg' "iterations" = natField cfg "iterations" →
                    monteCarlo playGame deck cfg' = configError message)
    as (message & Hne & Hrun).
  { destruct deck as [|c deck].
    - exists emptyDeckMessage. split; [done|]. done.
    - destruct Hbad as [?|Hzero]; [done|].
      exists zeroIterationsMessage. split; [done|]. intros cfg' Hsame.
      unfold monteCarlo. by rewrite Hsame, Hzero. }
  exists message. split; [done|]. rewrite (Hrun cfg eq_refl).
  split; [done|]. split; [by eexists|].
  intros deckId Hp.
  destruct (BoundaryFacts.rehydrate_protocol cfg Hp) as (re & Hre & _).
  unfold Worker.onmessage. cbn [Worker.msg_type Worker.msg_config
    Worker.msg_deckToParse Worker.msg_deckId].
  rewrite decide_True by done. rewrite Hre.
  rewrite (Hrun re).
  - reflexivity.
  - apply (natField_rehydrate cfg re); [done | | done].
    vm_compute. intros Hin. repeat (apply elem_of_cons in Hin as [Hin|Hin];
      [discriminate|]). by apply elem_of_nil in Hin.
Qed.

End Driver.

Lemma untapped_le_total_witness :
  ∃ res, Worker.outcome (monteCarlo Demo.forestEachTurn [Demo.forest] Demo.simConfig)
         = inl res
         ∧ length (untappedLandsPerTurn res) = 3%nat
         ∧ ∃ u l, untappedLandsPerTurn res !! 1%nat = Some u
                  ∧ landsPerTurn res !! 1%nat = Some l
                  ∧ (u <= l)%Q.
Proof.
  eexists. split; [vm_compute; reflexivity|].
  destruct (untapped_le_total Demo.forestEachTurn [Demo.forest] Demo.simConfig _
              eq_refl) as (Hlen & _ & Hle).
  split; [exact Hlen|]. apply (Hle 1%nat). vm_compute. lia.
Defined.

Lemma config_error_before_loop_witness :
  natField Demo.noIterations "iterations" = 0%nat
  ∧ ∃ message,
      message ≠ ""
      ∧ Worker.onmessage (monteCarlo Demo.forestEachTurn)
          (Worker.InMsg "RUN" "A" [Demo.forest] Demo.noIterations)
        = Worker.Returned [Worker.ERROR "A" message].
Proof.
  split; [reflexivity|].
  destruct (config_error_before_loop Demo.forestEachTurn [Demo.forest]
              Demo.noIterations (or_intror eq_refl))
    as (message & Hne & _ & _ & Hworker).
  exists message. split; [exact Hne|]. apply Hworker. vm_compute. reflexivity.
Defined.

(** Four games of three turns: one land, then two of which one is tapped,
    then three. *)
Example forestEachTurn_run :
  Worker.outcome (monteCarlo Demo.forestEachTurn [Demo.forest] Demo.simConfig)
  = inl {| landsPerTurn := [4 / 4; 8 / 4; 12 / 4]%Q;
           untappedLandsPerTurn := [4 / 4; 4 / 4; 12 / 4]%Q;
           totalManaPerTurn := [4 / 4; 4 / 4; 12 / 4]%Q;
           handsKept := 4 |}.
Proof. reflexivity. Qed.

End DriverFacts.

(** ** The boundary loops beyond the protocol's shape *)

Module BoundaryEdge.
Import BoundaryFacts Shape.

Lemma iterate_nullish_None (v : value) :
  iterate (nullish v (VArr [])) = None ↔ notIterable v = true.
Proof. destruct v; cbn; split; (done || discriminate). Qed.

Lemma conv_None (conv : list string -> value) (v : value) :
  conv <$> iterate (nullish v (VArr [])) = None ↔ notIterable v = true.
Proof.
  rewrite <- iterate_nullish_None.
  destruct (iterate (nullish v (VArr []))); cbn; split; (done || discriminate).
Qed.

(** A loop fails exactly when one of its fields cannot be iterated. *)
Lemma foldl_fieldStep_None_iff (conv : list string -> value) config fields acc :
  foldl (fieldStep (fun v => conv <$> iterate v) config) (Some acc) fields = None
  ↔ ∃ f, f ∈ fields ∧ notIterable (get config f) = true.
Proof.
  split.
  - revert acc. induction fields as [|x fields IH]; intros acc; [done|].
    cbn [foldl]. unfold fieldStep at 2. cbn.
    destruct (iterate (nullish (get config x) (VArr []))) as [l|] eqn:Hx; cbn.
    + intros (f & Hf & Hbad)%IH. exists f. split; [|done].
      by apply list_elem_of_further.
    + intros _. exists x. split; [apply list_elem_of_here|].
      by apply iterate_nullish_None.
  - intros (f & Hf & Hbad). apply (foldl_fieldStep_fail _ _ _ _ f Hf).
    by apply conv_None.
Qed.

Lemma foldl_fieldStep_lookup (conv : list string -> value) config fields acc out :
  foldl (fieldStep (fun v => conv <$> iterate v) config) (Some acc) fields
  = Some out →
  ∀ f, out !! f
       = if decide (f ∈ fields)
         then conv <$> iterate (nullish (get config f) (VArr []))
         else acc !! f.
Proof.
  intros Hout.
  assert (∀ f, f ∈ fields →
            is_Some (iterate (nullish (get config f) (VArr [])))) as Hok.
  { intros f Hf.
    destruct (iterate (nullish (get config f) (VArr []))) eqn:Hit; [by eexists|].
    exfalso. apply iterate_nullish_None in Hit.
    assert (foldl (fieldStep (fun v => conv <$> iterate v) config) (Some acc)
              fields = None) as Hnone.
    { apply foldl_fieldStep_None_iff. eauto. }
    congruence. }
  destruct (foldl_fieldStep_Some (fun v => conv <$> iterate v)
              (fun f => conv (default []
                 (iterate (nullish (get config f) (VArr [])))))
              config fields acc) as (out' & Hout' & Hlk).
  { intros f Hf. destruct (Hok f Hf) as [l Hl]. by rewrite Hl. }
  rewrite Hout in Hout'. injection Hout' as <-.
  intros f. rewrite Hlk. case_decide as Hf; [|done].
  destruct (Hok f Hf) as [l Hl]. by rewrite Hl.
Qed.

Lemma rehydrate_conv config :
  Worker.rehydrate config
  = foldl (fieldStep (fun v => (fun l => VSet (list_to_set l)) <$> iterate v)
             config) (Some config) Worker.SET_FIELDS.
Proof. reflexivity. Qed.

Lemma serializeConfig_conv config :
  App.serializeConfig config
  = foldl (fieldStep (fun v => VArr <$> iterate v) config) (Some config)
      Worker.SET_FIELDS.
Proof. reflexivity. Qed.

(** Rehydrating twice is rehydrating once: the Sets the worker builds are
    themselves iterable and give the same Sets again. *)
Theorem rehydrate_idempotent (config : object) :
  Worker.rehydrate config ≫= Worker.rehydrate = Worker.rehydrate config.
Proof.
  destruct (Worker.rehydrate config) as [re|] eqn:Hre; [cbn [mbind option_bind]|done].
  rewrite rehydrate_conv in Hre.
  pose proof (foldl_fieldStep_lookup _ _ _ _ _ Hre) as Hlk.
  assert (∀ f, f ∈ Worker.SET_FIELDS → ∃ s, re !! f = Some (VSet s)) as Hset.
  { intros f Hf. rewrite (Hlk f), decide_True by done.
    destruct (iterate (nullish (get config f) (VArr []))) as [l|] eqn:Hl;
      [by eexists|].
    exfalso. apply iterate_nullish_None in Hl.
    assert (foldl (fieldStep (fun v => (fun l => VSet (list_to_set l))
                                        <$> iterate v) config)
              (Some config) Worker.SET_FIELDS = None) as Hnone.
    { apply foldl_fieldStep_None_iff. eauto. }
    congruence. }
  destruct (foldl_fieldStep_Some newSet (fun f => get re f) re
              Worker.SET_FIELDS re) as (re' & Hre' & Hlk').
  { intros f Hf. destruct (Hset f Hf) as [s Hs]. unfold get. rewrite Hs.
    unfold newSet. cbn. by rewrite list_to_set_elements_L. }
  rewrite rehydrate_fieldStep, Hre'. f_equal. apply map_eq. intros f.
  rewrite Hlk'. case_decide as Hf; [|done].
  destruct (Hset f Hf) as [s Hs]. unfold get. by rewrite Hs.
Qed.

(** Serialising twice is serialising once. *)
Theorem serializeConfig_idempotent (config : object) :
  App.serializeConfig config ≫= App.serializeConfig
  = App.serializeConfig config.
Proof.
  destruct (App.serializeConfig config) as [out|] eqn:Hout; [cbn [mbind option_bind]|done].
  rewrite serializeConfig_conv in Hout.
  pose proof (foldl_fieldStep_lookup _ _ _ _ _ Hout) as Hlk.
  assert (∀ f, f ∈ Worker.SET_FIELDS → ∃ l, out !! f = Some (VArr l)) as Harr.
  { intros f Hf. rewrite (Hlk f), decide_True by done.
    destruct (iterate (nullish (get config f) (VArr []))) as [l|] eqn:Hl;
      [by eexists|].
    exfalso. apply iterate_nullish_None in Hl.
    assert (foldl (fieldStep (fun v => VArr <$> iterate v) config)
              (Some config) Worker.SET_FIELDS = None) as Hnone.
    { apply foldl_fieldStep_None_iff. eauto. }
    congruence. }
  destruct (foldl_fieldStep_Some spread (fun f => get out f) out
              Worker.SET_FIELDS out) as (out' & Hout' & Hlk').
  { intros f Hf. destruct (Harr f Hf) as [l Hl]. unfold get. by rewrite Hl. }
  rewrite serializeConfig_fieldStep, same_fields, Hout'. f_equal.
  apply map_eq. intros f.
  rewrite Hlk'. case_decide as Hf; [|done].
  destruct (Harr f Hf) as [l Hl]. unfold get. by rewrite Hl.
Qed.

(** The worker's loop turns an array into the Set of its members: the
    duplicates collapse and nothing else is lost or added. *)
Theorem rehydrate_array_members (config : object) (f : string)
    (l : list string) :
  Worker.protocol_config config = true →
  f ∈ Worker.SET_FIELDS →
  config !! f = Some (VArr l) →
  ∃ re s, Worker.rehydrate config = Some re
          ∧ re !! f = Some (VSet s)
          ∧ (∀ x, x ∈ s ↔ x ∈ l)
          ∧ (size s ≤ length l)%nat
          ∧ (NoDup l → size s = length l).
Proof.
  intros Hp Hf Hl.
  destruct (rehydrate_protocol config Hp) as (re & Hre & _).
  exists re, (list_to_set l). split; [done|].
  rewrite rehydrate_conv in Hre.
  pose proof (foldl_fieldStep_lookup _ _ _ _ _ Hre f) as Hlk.
  rewrite decide_True in Hlk by done. unfold get in Hlk. rewrite Hl in Hlk.
  cbn in Hlk. split; [done|]. split; [|split].
  - intros x. apply elem_of_list_to_set.
  - change (size (list_to_set l : gset string))
      with (length (elements (list_to_set l : gset string))).
    apply submseteq_length, NoDup_submseteq; [apply NoDup_elements|].
    intros x. by rewrite elem_of_elements, elem_of_list_to_set.
  - intros Hnd. by apply size_list_to_set.
Qed.

Lemma rehydrate_array_members_witness :
  Worker.protocol_config Samples.repeated = true
  ∧ "disabledArtifacts" ∈ Worker.SET_FIELDS
  ∧ Samples.repeated !! "disabledArtifacts"
    = Some (VArr ["Sol Ring"; "Mana Vault"; "Sol Ring"])
  ∧ ∃ re s, Worker.rehydrate Samples.repeated = Some re
            ∧ re !! "disabledArtifacts" = Some (VSet s)
            ∧ (∀ x, x ∈ s ↔ x ∈ ["Sol Ring"; "Mana Vault"; "Sol Ring"])
            ∧ (size s ≤ 3)%nat.
Proof.
  assert (Worker.protocol_config Samples.repeated = true) as Hp
    by (vm_compute; reflexivity).
  assert ("disabledArtifacts" ∈ Worker.SET_FIELDS) as Hf
    by (do 3 apply list_elem_of_further; apply list_elem_of_here).
  assert (Samples.repeated !! "disabledArtifacts"
          = Some (VArr ["Sol Ring"; "Mana Vault"; "Sol Ring"]))
    as Hl by (vm_compute; reflexivity).
  split; [exact Hp|]. split; [exact Hf|]. split; [exact Hl|].
  destruct (rehydrate_array_members Samples.repeated "disabledArtifacts"
              ["Sol Ring"; "Mana Vault"; "Sol Ring"] Hp Hf Hl)
    as (re & s & Hre & Hs & Hmem & Hsize & _).
  exists re, s. split; [exact Hre|]. split; [exact Hs|].
  split; [exact Hmem | exact Hsize].
Defined.

End BoundaryEdge.

Module WorkerEdge.
Import Worker Shape.

Section AnyRun.
Context {Deck Results : Type}.
Variable monteCarlo : Deck -> object -> @run Results.

(** Whatever the [config] object of a RUN message holds, the handler ends
    in one of three ways.  It dies in the rehydration, before [monteCarlo]
    is called and with nothing posted, which happens exactly when, for one
    of the nine fields, [config[field] ?? []] cannot be iterated.  Or
    [monteCarlo] throws [null] or [undefined]: the [catch] block dies
    reading [err.message], and the PROGRESS messages of the run are all
    that was posted.  Or it returns having posted the PROGRESS messages
    and then one terminal message, RESULT or ERROR. *)
Theorem onmessage_uncaught_or_terminal (data : in_msg) :
  msg_type data = "RUN" →
  (onmessage monteCarlo data = Uncaught []
   ∧ ∃ f, f ∈ SET_FIELDS
          ∧ iterate (nullish (get (msg_config data) f) (VArr [])) = None)
  ∨ (∃ rehydrated,
       rehydrate (msg_config data) = Some rehydrated
       ∧ (∀ f, f ∈ SET_FIELDS →
               is_Some (iterate (nullish (get (msg_config data) f)
                                         (VArr []))))
       ∧ let r := monteCarlo (msg_deckToParse data) rehydrated in
         let progress :=
           (fun p => PROGRESS (msg_deckId data) (fst p) (snd p))
             <$> progress_calls r in
         match outcome r with
         | inl results =>
             onmessage monteCarlo data
             = Returned (progress ++ [RESULT (msg_deckId data) results])
         | inr ThrownNullish =>
             onmessage monteCarlo data = Uncaught progress
         | inr (Thrown message text) =>
             onmessage monteCarlo data
             = Returned (progress
                         ++ [ERROR (msg_deckId data) (default text message)])
         end).
Proof.
  intros Hrun. unfold onmessage. rewrite decide_True by done.
  destruct (rehydrate (msg_config data)) as [re|] eqn:Hre.
  - right. exists re. split; [done|]. split.
    + intros f Hf.
      destruct (iterate (nullish (get (msg_config data) f) (VArr [])))
        as [l|] eqn:Hbad; [by eexists|].
      exfalso. apply BoundaryEdge.iterate_nullish_None in Hbad.
      rewrite BoundaryEdge.rehydrate_conv in Hre.
      assert (foldl (fieldStep (fun v => (fun l => VSet (list_to_set l))
                                          <$> iterate v) (msg_config data))
                (Some (msg_config data)) SET_FIELDS = None) as Hnone.
      { apply BoundaryEdge.foldl_fieldStep_None_iff. eauto. }
      congruence.
    + cbn zeta.
      by destruct (outcome (monteCarlo (msg_deckToParse data) re))
        as [res|[|message text]].
  - left. split; [done|].
    rewrite BoundaryEdge.rehydrate_conv in Hre.
    apply BoundaryEdge.foldl_fieldStep_None_iff in Hre as (f & Hf & Hbad).
    exists f. split; [done|]. by apply BoundaryEdge.iterate_nullish_None.
Qed.

End AnyRun.

Lemma onmessage_uncaught_or_terminal_witness :
  msg_type Demo.run_msg = "RUN"
  ∧ onmessage Demo.nullEngine Demo.run_msg = Uncaught [PROGRESS "A" 250 500].
Proof.
  split; [reflexivity|].
  destruct (onmessage_uncaught_or_terminal Demo.nullEngine Demo.run_msg
              eq_refl) as [[Hun _] | (re & _ & _ & Hend)].
  - exfalso. vm_compute in Hun. discriminate.
  - exact Hend.
Defined.

(** A number where an array belongs: the handler dies in the rehydration. *)
Example onmessage_bad_config :
  onmessage Demo.engine Demo.bad_msg = Uncaught []
  ∧ iterate (nullish (get (msg_config Demo.bad_msg) "selectedKeyCards")
                     (VArr [])) = None.
Proof. split; vm_compute; reflexivity. Qed.

End WorkerEdge.

Module DeckSlotEdge.
Import DeckSlot SlotShape.

Lemma elements_list_to_set_members (l : list string) :
  sameMembers l (elements (list_to_set l : gset string)).
Proof.
  split; [apply NoDup_elements|].
  intros x. by rewrite elem_of_elements, elem_of_list_to_set.
Qed.

Section Persisted.
Context {ParsedDeck Results Override : Type}.

(** Persisted data that goes through a slot and back: what was missing
    comes back as its default (the empty text, included, no names, no
    overrides), every list of names comes back without its duplicates and
    with the same members, everything else as it was. *)
Theorem serialize_default (s : @saved Override) :
  let s' := serializeDeckSlot
              (@defaultDeckSlot ParsedDeck Results Override s) in
  sv_deckText s' = Some (default "" (sv_deckText s))
  ∧ (∃ l', sv_selectedKeyCards s' = Some l'
       ∧ sameMembers (default [] (sv_selectedKeyCards s)) l')
  ∧ sv_includeArtifacts s' = Some (default true (sv_includeArtifacts s))
  ∧ (∃ l', sv_disabledArtifacts s' = Some l'
       ∧ sameMembers (default [] (sv_disabledArtifacts s)) l')
  ∧ sv_includeCreatures s' = Some (default true (sv_includeCreatures s))
  ∧ (∃ l', sv_disabledCreatures s' = Some l'
       ∧ sameMembers (default [] (sv_disabledCreatures s)) l')
  ∧ sv_manaOverrides s' = Some (default ∅ (sv_manaOverrides s))
  ∧ sv_includeExploration s' = Some (default true (sv_includeExploration s))
  ∧ (∃ l', sv_disabledExploration s' = Some l'
       ∧ sameMembers (default [] (sv_disabledExploration s)) l')
  ∧ sv_includeRampSpells s' = Some (default true (sv_includeRampSpells s))
  ∧ (∃ l', sv_disabledRampSpells s' = Some l'
       ∧ sameMembers (default [] (sv_disabledRampSpells s)) l')
  ∧ sv_includeRituals s' = Some (default true (sv_includeRituals s))
  ∧ (∃ l', sv_disabledRituals s' = Some l'
       ∧ sameMembers (default [] (sv_disabledRituals s)) l')
  ∧ sv_includeCostReducers s' = Some (default true (sv_includeCostReducers s))
  ∧ (∃ l', sv_disabledCostReducers s' = Some l'
       ∧ sameMembers (default [] (sv_disabledCostReducers s)) l')
  ∧ sv_includeDrawSpells s' = Some (default true (sv_includeDrawSpells s))
  ∧ (∃ l', sv_disabledDrawSpells s' = Some l'
       ∧ sameMembers (default [] (sv_disabledDrawSpells s)) l')
  ∧ sv_drawOverrides s' = Some (default ∅ (sv_drawOverrides s))
  ∧ sv_includeTreasures s' = Some (default true (sv_includeTreasures s))
  ∧ (∃ l', sv_disabledTreasures s' = Some l'
       ∧ sameMembers (default [] (sv_disabledTreasures s)) l')
  ∧ sv_treasureOverrides s' = Some (default ∅ (sv_treasureOverrides s))
  ∧ sv_ritualOverrides s' = Some (default ∅ (sv_ritualOverrides s)).
Proof.
  cbn. repeat split;
    try (eexists; split; [reflexivity | apply elements_list_to_set_members]).
Qed.

End Persisted.

End DeckSlotEdge.

Module SlotSetterFacts.
Import SlotSetter.

(** Setters compose without losing updates: on one key a later updater
    sees what the earlier one wrote and a later value replaces it; on
    different keys the order does not matter; no other field changes. *)
Theorem makeSlotSetter_compose (st : object) (k k' : string)
    (f g : value -> value) (v : value) (x y : valOrFn) :
  makeSlotSetter setState k (Fn g) (makeSlotSetter setState k (Fn f) st)
  = makeSlotSetter setState k (Fn (g ∘ f)) st
  ∧ makeSlotSetter setState k (Val v) (makeSlotSetter setState k x st)
    = makeSlotSetter setState k (Val v) st
  ∧ (k ≠ k' →
     makeSlotSetter setState k' y (makeSlotSetter setState k x st)
     = makeSlotSetter setState k x (makeSlotSetter setState k' y st))
  ∧ (k ≠ k' → makeSlotSetter setState k x st !! k' = st !! k').
Proof.
  unfold makeSlotSetter, setState, updater, get.
  split; [|split; [|split]].
  - rewrite lookup_insert_eq. cbn. by rewrite insert_insert_eq.
  - by rewrite insert_insert_eq.
  - intros Hne. rewrite !lookup_insert_ne by done.
    by apply insert_insert_ne.
  - intros Hne. by rewrite lookup_insert_ne.
Qed.

Lemma makeSlotSetter_compose_witness :
  "deckText" ≠ "includeArtifacts"
  ∧ makeSlotSetter setState "includeArtifacts" (Val (VBool false))
      (makeSlotSetter setState "deckText" (Val (VStr "4 Forest")) ∅)
    = makeSlotSetter setState "deckText" (Val (VStr "4 Forest"))
        (makeSlotSetter setState "includeArtifacts" (Val (VBool false)) ∅).
Proof.
  assert ("deckText" ≠ "includeArtifacts") as Hne by discriminate.
  split; [exact Hne|].
  exact (proj1 (proj2 (proj2
    (makeSlotSetter_compose ∅ "deckText" "includeArtifacts" id id VNull
       (Val (VStr "4 Forest")) (Val (VBool false))))) Hne).
Defined.

End SlotSetterFacts.

Module AppRunFacts.
Import AppRun.

Lemma mathRound_bounds (q : Q) (lo hi : Z) :
  (inject_Z lo <= q)%Q → (q <= inject_Z hi)%Q →
  (lo <= mathRound q <= hi)%Z.
Proof.
  intros Hlo Hhi. unfold mathRound. split.
  - rewrite <- (Qfloor_Z lo). apply Qfloor_resp_le.
    apply Qle_trans with q; [done|].
    rewrite <- (Qplus_0_r q) at 1. apply Qplus_le_r. discriminate.
  - assert (Qfloor (q + (1 # 2)) < hi + 1)%Z; [|lia].
    rewrite Zlt_Qlt, inject_Z_plus.
    apply Qle_lt_trans with (q + (1 # 2))%Q; [apply Qfloor_le|].
    apply Qle_lt_trans with (inject_Z hi + (1 # 2))%Q.
    + by apply Qplus_le_l.
    + apply Qplus_lt_r. reflexivity.
Qed.

Lemma ratio_bounds (completed total : nat) :
  (total ≠ 0)%nat → (completed ≤ total)%nat →
  (0 <= inject_Z (Z.of_nat completed) / inject_Z (Z.of_nat total))%Q
  ∧ (inject_Z (Z.of_nat completed) / inject_Z (Z.of_nat total) <= 1)%Q.
Proof.
  intros Hne Hle.
  assert (0 < inject_Z (Z.of_nat total))%Q as Hpos.
  { rewrite <- (Zlt_Qlt 0). lia. }
  split.
  - apply Qle_shift_div_l; [done|]. rewrite Qmult_0_l.
    rewrite <- (Zle_Qle 0). lia.
  - apply Qle_shift_div_r; [done|]. rewrite Qmult_1_l.
    rewrite <- Zle_Qle. lia.
Qed.

(** The progress shown for a PROGRESS message that reports no more than
    the total is a percentage: within 0..100, and in comparison mode within
    0..50 for deck A and within 50..100 for deck B.  A total of 0 gives no
    number at all. *)
Theorem progressValue_bounds (comparisonMode : bool) (deckId : string)
    (completed total : nat) :
  (completed ≤ total)%nat →
  (total = 0%nat → progressValue comparisonMode deckId completed total = None)
  ∧ (total ≠ 0%nat →
     ∃ p, progressValue comparisonMode deckId completed total = Some p
          ∧ (comparisonMode = false → deckId ≠ "B" → (0 <= p <= 100)%Z)
          ∧ (comparisonMode = true → deckId ≠ "B" → (0 <= p <= 50)%Z)
          ∧ (comparisonMode = true → deckId = "B" → (50 <= p <= 100)%Z)).
Proof.
  intros Hle. unfold progressValue. split.
  - intros ->. reflexivity.
  - intros Hne. rewrite (proj2 (Nat.eqb_neq total 0) Hne).
    eexists. split; [reflexivity|].
    destruct (ratio_bounds completed total Hne Hle) as [H0 H1].
    set (r := (inject_Z (Z.of_nat completed) / inject_Z (Z.of_nat total))%Q)
      in *.
    split; [|split].
    + intros -> HA. rewrite decide_False by done.
      apply mathRound_bounds.
      * rewrite Qplus_0_l. apply Qmult_le_0_compat; [done | discriminate].
      * rewrite Qplus_0_l.
        apply Qle_trans with (1 * (100 / 1))%Q; [|discriminate].
        apply Qmult_le_compat_r; [done | discriminate].
    + intros -> HA. rewrite decide_False by done.
      apply mathRound_bounds.
      * rewrite Qplus_0_l. apply Qmult_le_0_compat; [done | discriminate].
      * rewrite Qplus_0_l.
        apply Qle_trans with (1 * (100 / 2))%Q; [|discriminate].
        apply Qmult_le_compat_r; [done | discriminate].
    + intros -> ->. rewrite decide_True by done.
      apply mathRound_bounds.
      * apply Qle_trans with (50 + 0)%Q; [discriminate|].
        apply Qplus_le_r. apply Qmult_le_0_compat; [done | discriminate].
      * apply Qle_trans with (50 + 1 * (100 / 2))%Q; [|discriminate].
        apply Qplus_le_r. apply Qmult_le_compat_r; [done | discriminate].
Qed.

Lemma progressValue_bounds_witness :
  (125 ≤ 500)%nat
  ∧ ∃ p, progressValue true "B" 125 500 = Some p ∧ (50 <= p <= 100)%Z.
Proof.
  split; [lia|].
  destruct (progressValue_bounds true "B" 125 500 ltac:(lia)) as [_ H].
  destruct (H ltac:(lia)) as (p & Hp & _ & _ & HB).
  exists p. split; [exact Hp | exact (HB eq_refl eq_refl)].
Defined.

(** 125 of 500 iterations of deck B in comparison mode: 63 percent. *)
Example progressValue_quarter_B : progressValue true "B" 125 500 = Some 63%Z.
Proof. reflexivity. Qed.

Section Run.
Context {Deck Results : Type}.
Variable monteCarlo : Deck -> object -> @Worker.run Results.
Variable uncaughtMessage : option string.

Abbreviation state := (@state Results).
Abbreviation second := (option (Deck * object)).

Lemma setSimProgress_idem (p q : option Z) (st : state) :
  setSimProgress p (setSimProgress q st) = setSimProgress p st.
Proof. reflexivity. Qed.

Lemma setSimProgress_same (st : state) :
  setSimProgress (simProgress st) st = st.
Proof. by destruct st. Qed.

(** The PROGRESS messages of a run only move the progress shown. *)
Lemma deliver_progress (deckB : second) deckId (calls : list (nat * nat))
    (rest : list (@Worker.out_msg Results)) (st : state) :
  workerAlive st = true →
  deliver deckB st
    (((fun p => Worker.PROGRESS deckId (fst p) (snd p)) <$> calls) ++ rest)
  = deliver deckB
      (setSimProgress
         (progressAfter (bool_decide (is_Some deckB)) deckId calls
            (simProgress st)) st) rest.
Proof.
  revert st. induction calls as [|c calls IH]; intros st Halive.
  - cbn. by rewrite setSimProgress_same.
  - rewrite fmap_cons. cbn [app deliver]. rewrite Halive.
    cbn [onWorkerMessage]. rewrite IH by done.
    rewrite setSimProgress_idem. cbn [progressAfter foldl simProgress
      setSimProgress].
    by destruct (deliver deckB _ rest).
Qed.

Lemma deliver_one (deckB : second) (st : state) m :
  workerAlive st = true →
  deliver deckB st [m] = onWorkerMessage deckB st m.
Proof.
  intros Halive. cbn. rewrite Halive.
  destruct (onWorkerMessage deckB st m) as [st1 out1].
  by rewrite app_nil_r.
Qed.

(** What [serializeConfig] makes of a configuration built from a slot has
    the shape the worker expects. *)
Lemma serialized_protocol (config : object) :
  App.set_valued config = true →
  ∃ out, App.serializeConfig config = Some out
         ∧ Worker.protocol_config out = true.
Proof.
  intros Hset.
  assert (∀ f, f ∈ Worker.SET_FIELDS →
               Shape.notIterable (get config f) = false) as Hit.
  { intros f Hf. pose proof (BoundaryFacts.forallb_elem_of _ _ _ Hset Hf) as H.
    cbn beta in H. unfold get.
    destruct (config !! f) as [[] |]; try discriminate; reflexivity. }
  destruct (App.serializeConfig config) as [out|] eqn:Hout.
  - exists out. split; [done|].
    rewrite BoundaryEdge.serializeConfig_conv in Hout.
    pose proof (BoundaryEdge.foldl_fieldStep_lookup _ _ _ _ _ Hout) as Hlk.
    unfold Worker.protocol_config. apply forallb_forall. intros f Hf.
    apply list_elem_of_In in Hf. rewrite (Hlk f), decide_True by done.
    by destruct (iterate (nullish (get config f) (VArr []))).
  - exfalso. rewrite BoundaryEdge.serializeConfig_conv in Hout.
    apply BoundaryEdge.foldl_fieldStep_None_iff in Hout as (f & Hf & Hbad).
    rewrite (Hit f Hf) in Hbad. discriminate.
Qed.

Lemma pump_done (fuel : nat) (deckB : second) (st : state) :
  pump monteCarlo uncaughtMessage fuel deckB st [] = (st, []).
Proof. destruct fuel; cbn; by destruct (workerAlive st). Qed.

(** What one RUN message of the protocol's shape does to the main thread:
    the progress moves, and then the terminal message is handled, or, when
    the worker's [catch] block threw, [worker.onerror] runs. *)
Lemma pump_run (fuel : nat) (deckB : second) (st : state)
    (data : @Worker.in_msg Deck) :
  Worker.msg_type data = "RUN" →
  Worker.protocol_config (Worker.msg_config data) = true →
  workerAlive st = true →
  ∃ re, Worker.rehydrate (Worker.msg_config data) = Some re
    ∧ pump monteCarlo uncaughtMessage (S fuel) deckB st [data]
      = (let moved :=
           setSimProgress
             (progressAfter (bool_decide (is_Some deckB))
                (Worker.msg_deckId data)
                (Worker.progress_calls
                   (monteCarlo (Worker.msg_deckToParse data) re))
                (simProgress st)) st in
         match Worker.terminalOf (Worker.msg_deckId data)
                 (Worker.outcome
                    (monteCarlo (Worker.msg_deckToParse data) re)) with
         | Some last =>
             let '(st1, out) := onWorkerMessage deckB moved last in
             pump monteCarlo uncaughtMessage fuel deckB st1 out
         | None => (onerror uncaughtMessage moved, [])
         end).
Proof.
  intros Hrun Hp Halive.
  destruct (BoundaryFacts.rehydrate_protocol _ Hp) as (re & Hre & _).
  exists re. split; [done|]. cbn [pump]. rewrite Halive.
  unfold Worker.onmessage. rewrite decide_True by done. rewrite Hre.
  cbn zeta.
  destruct (Worker.terminalOf (Worker.msg_deckId data)
              (Worker.outcome (monteCarlo (Worker.msg_deckToParse data) re)))
    as [last|].
  - rewrite deliver_progress, deliver_one by done.
    by destruct (onWorkerMessage deckB _ last).
  - rewrite <- (app_nil_r (_ <$> _)), deliver_progress by done.
    cbn [deliver app]. apply pump_done.
Qed.

(** A run of a single deck: the configuration is serialised, the worker
    rehydrates it and runs [monteCarlo] on it; when the messages have been
    handled the worker is terminated and the overlay is off, and either the
    results are stored, the progress is 100 and no error is shown, or
    nothing is stored and the error's text is shown after "Simulation
    error: " (the text the worker posted or, when the worker's [catch]
    block itself threw, what [worker.onerror] was told).  Deck B's results
    are not touched. *)
Theorem runSimulation_single (fuel : nat) (deckA : Deck)
    (parsedDeckB : option Deck) (configOfA configOfB : object) (st : state) :
  (1 ≤ fuel)%nat →
  App.set_valued configOfA = true →
  ∃ cA re st',
    App.serializeConfig configOfA = Some cA
    ∧ Worker.rehydrate cA = Some re
    ∧ runSimulation monteCarlo uncaughtMessage fuel (Some deckA) parsedDeckB
        false configOfA configOfB st = Ran st' []
    ∧ isSimulating st' = false
    ∧ workerAlive st' = false
    ∧ resultsB st' = resultsB st
    ∧ match Worker.outcome (monteCarlo deckA re) with
      | inl r => resultsA st' = Some r
                 ∧ simProgress st' = Some 100%Z
                 ∧ error st' = ""
      | inr e => resultsA st' = resultsA st
                 ∧ error st'
                   = "Simulation error: "
                     +:+ default (default "unknown" uncaughtMessage)
                                 (Worker.errorText e)
      end.
Proof.
  intros Hfuel Hset. destruct fuel as [|fuel]; [lia|].
  destruct (serialized_protocol configOfA Hset) as (cA & HcA & Hp).
  set (st0 := State "" true (Some 0%Z) (resultsA st) (resultsB st) true).
  destruct (pump_run fuel None st0 (Worker.InMsg "RUN" "A" deckA cA)
              eq_refl Hp eq_refl) as (re & Hre & Hpump).
  exists cA, re. unfold runSimulation. rewrite HcA. fold st0.
  cbn [fmap option_fmap option_map]. rewrite Hpump.
  cbn [Worker.msg_deckId Worker.msg_deckToParse].
  destruct (Worker.outcome (monteCarlo deckA re)) as [r|[|message text]];
    cbn [Worker.terminalOf Worker.errorText fmap option_fmap option_map
         onWorkerMessage];
    rewrite ?decide_True by done; rewrite ?pump_done; eexists;
    (split; [done|]); (split; [done|]); (split; [reflexivity|]);
    repeat split.
Qed.

(** A run in comparison mode: deck A goes first; if its run throws, the
    error is shown and deck B is not run; if it returns, its results are
    stored and deck B follows, whose results are stored or whose error is
    shown.  In every case the worker ends terminated, the overlay off and
    no message left in the queue. *)
Theorem runSimulation_comparison (fuel : nat) (deckA deckB : Deck)
    (configOfA configOfB : object) (st : state) :
  (2 ≤ fuel)%nat →
  App.set_valued configOfA = true →
  App.set_valued configOfB = true →
  ∃ cA cB reA reB st',
    App.serializeConfig configOfA = Some cA
    ∧ App.serializeConfig configOfB = Some cB
    ∧ Worker.rehydrate cA = Some reA
    ∧ Worker.rehydrate cB = Some reB
    ∧ runSimulation monteCarlo uncaughtMessage fuel (Some deckA) (Some deckB)
        true configOfA configOfB st = Ran st' []
    ∧ isSimulating st' = false
    ∧ workerAlive st' = false
    ∧ match Worker.outcome (monteCarlo deckA reA) with
      | inr e => resultsA st' = resultsA st
                 ∧ resultsB st' = resultsB st
                 ∧ error st'
                   = "Simulation error: "
                     +:+ default (default "unknown" uncaughtMessage)
                                 (Worker.errorText e)
      | inl rA =>
          resultsA st' = Some rA
          ∧ match Worker.outcome (monteCarlo deckB reB) with
            | inl rB => resultsB st' = Some rB
                        ∧ simProgress st' = Some 100%Z
                        ∧ error st' = ""
            | inr e => resultsB st' = resultsB st
                       ∧ error st'
                         = "Simulation error: "
                           +:+ default (default "unknown" uncaughtMessage)
                                       (Worker.errorText e)
            end
      end.
Proof.
  intros Hfuel HsetA HsetB. destruct fuel as [|[|fuel]]; [lia | lia |].
  destruct (serialized_protocol configOfA HsetA) as (cA & HcA & HpA).
  destruct (serialized_protocol configOfB HsetB) as (cB & HcB & HpB).
  destruct (BoundaryFacts.rehydrate_protocol cB HpB) as (reB & HreB & _).
  set (st0 := State "" true (Some 0%Z) (resultsA st) (resultsB st) true).
  destruct (pump_run (S fuel) (Some (deckB, cB)) st0
              (Worker.InMsg "RUN" "A" deckA cA) eq_refl HpA eq_refl)
    as (reA & HreA & HpumpA).
  exists cA, cB, reA, reB. unfold runSimulation. rewrite HcA, HcB. fold st0.
  cbn [fmap option_fmap option_map]. rewrite HpumpA.
  cbn [Worker.msg_deckId Worker.msg_deckToParse].
  destruct (Worker.outcome (monteCarlo deckA reA)) as [rA|[|messageA textA]];
    cbn [Worker.terminalOf Worker.errorText fmap option_fmap option_map
         onWorkerMessage].
  - rewrite decide_True by done.
    match goal with
    | |- context [pump _ _ (S fuel) _ ?s [?d]] =>
        destruct (pump_run fuel (Some (deckB, cB)) s d eq_refl HpB eq_refl)
          as (reB' & HreB' & HpumpB)
    end.
    cbn [Worker.msg_config] in HreB'. rewrite HreB in HreB'.
    injection HreB' as <-. rewrite HpumpB.
    cbn [Worker.msg_deckId Worker.msg_deckToParse].
    destruct (Worker.outcome (monteCarlo deckB reB))
      as [rB|[|messageB textB]];
      cbn [Worker.terminalOf Worker.errorText fmap option_fmap option_map
           onWorkerMessage];
      rewrite ?decide_False by done;
      rewrite ?pump_done; eexists; do 4 (split; [done|]);
      (split; [reflexivity|]); repeat split.
  - eexists. do 4 (split; [done|]).
    (split; [reflexivity|]); repeat split.
  - rewrite pump_done. eexists. do 4 (split; [done|]).
    (split; [reflexivity|]); repeat split.
Qed.

(** A RUN message that breaks the worker's rehydration does not hang the
    main thread: nothing is posted, [worker.onerror] shows the reported
    message (or "unknown"), terminates the worker and switches the overlay
    off; results and progress stay as they were. *)
Theorem uncaught_run_reported (fuel : nat) (deckB : second) (st : state)
    (data : @Worker.in_msg Deck) (f : string) :
  Worker.msg_type data = "RUN" →
  f ∈ Worker.SET_FIELDS →
  Shape.notIterable (get (Worker.msg_config data) f) = true →
  workerAlive st = true →
  ∃ st', pump monteCarlo uncaughtMessage (S fuel) deckB st [data] = (st', [])
         ∧ error st'
           = "Simulation error: " +:+ default "unknown" uncaughtMessage
         ∧ isSimulating st' = false
         ∧ workerAlive st' = false
         ∧ resultsA st' = resultsA st
         ∧ resultsB st' = resultsB st
         ∧ simProgress st' = simProgress st.
Proof.
  intros Hrun Hf Hbad Halive. cbn [pump]. rewrite Halive.
  assert (Worker.onmessage monteCarlo data = Worker.Uncaught []) as ->.
  { unfold Worker.onmessage. rewrite decide_True by done.
    rewrite BoundaryEdge.rehydrate_conv.
    assert (foldl (fieldStep (fun v => (fun l => VSet (list_to_set l))
                                        <$> iterate v) (Worker.msg_config data))
              (Some (Worker.msg_config data)) Worker.SET_FIELDS = None) as ->.
    { apply BoundaryEdge.foldl_fieldStep_None_iff. eauto. }
    reflexivity. }
  cbn [deliver app]. rewrite pump_done. eexists. split; [reflexivity|].
  by repeat split.
Qed.

End Run.

Lemma runSimulation_single_witness :
  (1 ≤ 1)%nat
  ∧ App.set_valued Demo.config = true
  ∧ ∃ st', runSimulation Demo.engine None 1 (Some ["Forest"]) None false
             Demo.config Demo.config
             (State "" false None None None false)
           = Ran st' []
           ∧ isSimulating st' = false
           ∧ resultsA st' = Some ["Forest"].
Proof.
  split; [lia|]. split; [vm_compute; reflexivity|].
  destruct (runSimulation_single Demo.engine None 1 ["Forest"] None
              Demo.config Demo.config (State "" false None None None false)
              ltac:(lia) ltac:(vm_compute; reflexivity))
    as (cA & re & st' & _ & _ & Hrun & Hsim & _ & _ & Hout).
  exists st'. split; [exact Hrun|]. split; [exact Hsim|].
  exact (proj1 Hout).
Defined.

Lemma runSimulation_comparison_witness :
  (2 ≤ 2)%nat
  ∧ App.set_valued Demo.config = true
  ∧ ∃ st', runSimulation Demo.engine None 2 (Some ["Forest"]) (Some [])
             true Demo.config Demo.config
             (State "" false None None None false)
           = Ran st' []
           ∧ isSimulating st' = false
           ∧ resultsA st' = Some ["Forest"]
           ∧ resultsB st' = None
           ∧ error st' = "Simulation error: Deck is empty".
Proof.
  split; [lia|]. split; [vm_compute; reflexivity|].
  destruct (runSimulation_comparison Demo.engine None 2 ["Forest"] []
              Demo.config Demo.config (State "" false None None None false)
              ltac:(lia) ltac:(vm_compute; reflexivity)
              ltac:(vm_compute; reflexivity))
    as (cA & cB & reA & reB & st' & _ & _ & _ & _ & Hrun & Hsim & _ & Hout).
  exists st'. split; [exact Hrun|]. split; [exact Hsim|].
  destruct Hout as (HA & HB & Herr). by repeat split.
Defined.

Lemma uncaught_run_reported_witness :
  ∃ st', pump Demo.engine (Some "Uncaught TypeError") 1 None
           (State "" true (Some 0%Z) None None true) [Demo.bad_msg]
         = (st', [])
         ∧ error st' = "Simulation error: Uncaught TypeError"
         ∧ isSimulating st' = false.
Proof.
  destruct (uncaught_run_reported Demo.engine (Some "Uncaught TypeError") 0
              None (State "" true (Some 0%Z) None None true) Demo.bad_msg
              "selectedKeyCards" eq_refl (list_elem_of_here _ _) eq_refl
              eq_refl)
    as (st' & Hpump & Herr & Hsim & _).
  exists st'. split; [exact Hpump|]. split; [exact Herr | exact Hsim].
Defined.

End AppRunFacts.

Module ManaSymbolsFacts.
Import ManaSymbols.

Lemma list_ascii_app (s1 s2 : string) :
  String.list_ascii_of_string (s1 +:+ s2)
  = (String.list_ascii_of_string s1 ++ String.list_ascii_of_string s2)%list.
Proof.
  induction s1 as [|a s1 IH]; [done|].
  change (String a s1 +:+ s2) with (String a (s1 +:+ s2)).
  cbn [String.list_ascii_of_string app]. by rewrite IH.
Qed.

Lemma notCloseRun_length (cs : list ascii) :
  (length (fst (notCloseRun cs)) + length (snd (notCloseRun cs)))%nat
  = length cs.
Proof.
  induction cs as [|c cs IH]; [done|]. cbn [notCloseRun].
  destruct (isClose c); [done|].
  destruct (notCloseRun cs) as [run after]. cbn in *. lia.
Qed.

Lemma matchAt_shorter (cs run after : list ascii) :
  matchAt cs = Some (run, after) → (length after < length cs)%nat.
Proof.
  destruct cs as [|c rest]; [done|]. cbn [matchAt].
  destruct (isOpen c); [|done].
  pose proof (notCloseRun_length rest) as Hlen.
  destruct (notCloseRun rest) as [[|x run'] [|d after']]; try done.
  intros [= <- <-]. cbn in *. lia.
Qed.

(** More steps than characters change nothing. *)
Lemma matchAll_fuel (fuel : nat) (cs : list ascii) :
  (length cs ≤ fuel)%nat → matchAll fuel cs = matchAll (length cs) cs.
Proof.
  revert fuel.
  induction cs as [cs IH] using (induction_ltof1 _ (@length ascii)).
  unfold ltof in IH. intros fuel Hfuel.
  destruct cs as [|c tl]; [by destruct fuel|].
  destruct fuel as [|fuel]; [cbn in Hfuel; lia|].
  cbn [length matchAll].
  destruct (matchAt (c :: tl)) as [[run after]|] eqn:Hm.
  - apply matchAt_shorter in Hm as Hlt. cbn [length] in Hlt, Hfuel.
    f_equal. rewrite (IH after) by (cbn [length]; lia).
    symmetry. apply IH; cbn [length]; lia.
  - cbn [length] in Hfuel. apply IH; cbn [length]; lia.
Qed.

Lemma notCloseRun_closed (l rest : list ascii) :
  forallb (fun c => negb (isClose c)) l = true →
  notCloseRun (l ++ "}"%char :: rest)%list = (l, "}"%char :: rest).
Proof.
  induction l as [|c l IH]; [done|]. cbn [forallb app notCloseRun].
  intros [Hc Hl]%andb_prop. apply negb_true_iff in Hc. rewrite Hc.
  by rewrite (IH Hl).
Qed.

Lemma braceFree_split (s : string) :
  braceFree s = true →
  forallb (fun c => negb (isClose c)) (String.list_ascii_of_string s) = true
  ∧ List.filter (fun c => negb (isOpen c || isClose c))
      (String.list_ascii_of_string s)
    = String.list_ascii_of_string s.
Proof.
  unfold braceFree. induction (String.list_ascii_of_string s) as [|c l IH];
    [done|].
  cbn [forallb List.filter]. intros [Hc Hl]%andb_prop.
  destruct (IH Hl) as [H1 H2]. rewrite Hc, H1, H2.
  split; [|done]. destruct (isOpen c), (isClose c); done.
Qed.

Lemma stripBraces_braceFree (s : string) :
  braceFree s = true → stripBraces (String.list_ascii_of_string s) = s.
Proof.
  intros Hs. unfold stripBraces.
  rewrite (proj2 (braceFree_split s Hs)).
  apply String.string_of_list_ascii_of_string.
Qed.

(** Round trip: a cost written from symbols that are not empty and hold
    no brace parses back into those symbols. *)
Theorem parseManaSymbols_writeCost (symbols : list string) :
  Forall (fun s => s ≠ "" ∧ braceFree s = true) symbols →
  parseManaSymbols (Some (writeCost symbols)) = symbols.
Proof.
  unfold parseManaSymbols. induction 1 as [|s symbols [Hne Hbf] _ IH];
    [done|].
  cbn [writeCost foldr]. fold (writeCost symbols).
  rewrite !list_ascii_app.
  change (String.list_ascii_of_string "{") with ["{"%char].
  change (String.list_ascii_of_string "}") with ["}"%char].
  cbn [app length matchAll].
  set (ls := String.list_ascii_of_string s).
  set (rest := String.list_ascii_of_string (writeCost symbols)) in *.
  assert (matchAt ("{"%char :: ls ++ "}"%char :: rest)%list = Some (ls, rest))
    as Hm.
  { cbn [matchAt]. change (isOpen "{"%char) with true. cbn iota.
    rewrite notCloseRun_closed by apply (braceFree_split s Hbf).
    subst ls. destruct s; [done|]. reflexivity. }
  rewrite Hm. rewrite fmap_cons. f_equal.
  - by apply stripBraces_braceFree.
  - rewrite matchAll_fuel; [exact IH|].
    rewrite length_app. cbn. lia.
Qed.

Lemma parseManaSymbols_writeCost_witness :
  Forall (fun s => s ≠ "" ∧ braceFree s = true) ["2"; "G/U"; "G"]
  ∧ parseManaSymbols (Some "{2}{G/U}{G}") = ["2"; "G/U"; "G"].
Proof.
  assert (Forall (fun s => s ≠ "" ∧ braceFree s = true) ["2"; "G/U"; "G"])
    as Hok by (repeat constructor; discriminate).
  split; [exact Hok|].
  exact (parseManaSymbols_writeCost ["2"; "G/U"; "G"] Hok).
Defined.

(** No symbol that comes out holds a brace, whatever went in. *)
Theorem parseManaSymbols_braceFree (manaCost : option string) (s : string) :
  s ∈ parseManaSymbols manaCost → braceFree s = true.
Proof.
  destruct manaCost as [m|]; cbn [parseManaSymbols]; [|by intros ?%elem_of_nil].
  intros (run & -> & _)%list_elem_of_fmap.
  unfold braceFree, stripBraces.
  rewrite String.list_ascii_of_string_of_list_ascii.
  apply forallb_forall. intros c Hc. by apply filter_In in Hc as [_ Hc].
Qed.

Lemma parseManaSymbols_braceFree_witness :
  "ab" ∈ parseManaSymbols (Some "{{}x{}{a{b}}{") ∧ braceFree "ab" = true.
Proof.
  assert ("ab" ∈ parseManaSymbols (Some "{{}x{}{a{b}}{")) as Hin.
  { vm_compute. apply list_elem_of_further, list_elem_of_here. }
  split; [exact Hin|].
  exact (parseManaSymbols_braceFree _ _ Hin).
Defined.

(** The unit tests of [parseManaSymbols], and the odd inputs: an empty
    pair of braces is no symbol, a brace inside a symbol is dropped. *)
Example parseManaSymbols_tests :
  parseManaSymbols None = []
  ∧ parseManaSymbols (Some "") = []
  ∧ parseManaSymbols (Some "{3}") = ["3"]
  ∧ parseManaSymbols (Some "{2}{G}{G}") = ["2"; "G"; "G"]
  ∧ parseManaSymbols (Some "{W}{U}{B}{R}{G}") = ["W"; "U"; "B"; "R"; "G"]
  ∧ parseManaSymbols (Some "{X}{R}") = ["X"; "R"]
  ∧ parseManaSymbols (Some "no braces here") = []
  ∧ parseManaSymbols (Some "{}{1}") = ["1"]
  ∧ parseManaSymbols (Some "{a{b}") = ["ab"].
Proof. vm_compute. repeat split; reflexivity. Qed.

End ManaSymbolsFacts.

Module CardLookupFacts.
Import CardLookup.

Section Lower.
Variable toLowerCase : string -> string.

Abbreviation buildLookupMap := (buildLookupMap toLowerCase).
Abbreviation addCard := (addCard toLowerCase).

Lemma buildLookupMap_snoc (data : list scryfallCard) (card : scryfallCard) :
  buildLookupMap (data ++ [card]) = addCard (buildLookupMap data) card.
Proof. unfold CardLookup.buildLookupMap. by rewrite foldl_app. Qed.

Lemma addCard_keeps (m : gmap string scryfallCard) (card : scryfallCard)
    (n : string) :
  is_Some (m !! n) → is_Some (addCard m card !! n).
Proof.
  intros Hn. unfold CardLookup.addCard. destruct (isToken card); [done|].
  destruct (m !! toLowerCase (name card)) eqn:Hc.
  - destruct (negb _); [|done]. rewrite lookup_insert_is_Some.
    destruct (decide (toLowerCase (name card) = n)); auto.
  - rewrite lookup_insert_is_Some.
    destruct (decide (toLowerCase (name card) = n)); auto.
Qed.

Lemma covers_aux (data : list scryfallCard)
    (card : scryfallCard) :
  card ∈ data → isToken card = false →
  is_Some (buildLookupMap data !! toLowerCase (name card)).
Proof.
  induction data as [|d data IH] using rev_ind;
    [by intros ?%elem_of_nil|].
  intros [Hin | Heq%list_elem_of_singleton]%elem_of_app Hnt;
    rewrite buildLookupMap_snoc.
  - by apply addCard_keeps, IH.
  - subst d. unfold CardLookup.addCard. rewrite Hnt.
    destruct (buildLookupMap data !! toLowerCase (name card)) eqn:Hc.
    + destruct (negb _); [by rewrite lookup_insert_eq | by rewrite Hc].
    + by rewrite lookup_insert_eq.
Qed.

Lemma entry_aux (data : list scryfallCard) (n : string)
    (card : scryfallCard) :
  buildLookupMap data !! n = Some card →
  card ∈ data ∧ isToken card = false ∧ toLowerCase (name card) = n
  ∧ ∀ other, other ∈ data → isToken other = false →
             toLowerCase (name other) = n →
             (cmcOf other <= cmcOf card)%Q.
Proof.
  revert n card.
  induction data as [|new data IH] using rev_ind; intros n card.
  { unfold CardLookup.buildLookupMap. cbn [foldl]. by rewrite lookup_empty. }
  rewrite buildLookupMap_snoc. unfold CardLookup.addCard.
  assert (∀ c : scryfallCard,
            buildLookupMap data !! n = Some c →
            toLowerCase (name new) ≠ n ∨ isToken new = true
            ∨ (cmcOf new <= cmcOf c)%Q →
            c ∈ (data ++ [new])%list ∧ isToken c = false
            ∧ toLowerCase (name c) = n
            ∧ ∀ other, other ∈ (data ++ [new])%list → isToken other = false →
                toLowerCase (name other) = n →
                (cmcOf other <= cmcOf c)%Q) as Hold.
  { intros c (Hin & Hnt & Hn & Hmax)%IH Hnew.
    split; [apply elem_of_app; by left|].
    split; [done|]. split; [done|].
    intros other [Ho | Heq%list_elem_of_singleton]%elem_of_app Hnt' Hn';
      [by apply Hmax|]. subst other.
    destruct Hnew as [? | [? | ?]]; [done | congruence | done]. }
  destruct (isToken new) eqn:Htok; [intros Hc; apply Hold; auto|].
  destruct (buildLookupMap data !! toLowerCase (name new))
    as [existing|] eqn:Hex.
  - destruct (Qle_bool (cmcOf new) (cmcOf existing)) eqn:Hle; cbn [negb].
    + intros Hc. apply Hold; [done|].
      destruct (decide (toLowerCase (name new) = n)) as [Heq|]; [|auto].
      right. right. rewrite Heq, Hc in Hex. injection Hex as <-.
      by apply Qle_bool_iff.
    + destruct (decide (toLowerCase (name new) = n)) as [<-|Hne].
      * rewrite lookup_insert_eq. intros [= <-].
        split; [apply elem_of_app; right; apply list_elem_of_here|].
        split; [done|]. split; [done|].
        intros other [Ho | Heq%list_elem_of_singleton]%elem_of_app Hnt' Hn';
          [|subst other; apply Qle_refl].
        destruct (IH _ _ Hex) as (_ & _ & _ & Hmax).
        apply Qle_trans with (cmcOf existing); [by apply Hmax|].
        apply Qlt_le_weak, Qnot_le_lt. intros Hc.
        apply Qle_bool_iff in Hc. congruence.
      * rewrite lookup_insert_ne by done. intros Hc. apply Hold; auto.
  - destruct (decide (toLowerCase (name new) = n)) as [<-|Hne].
    + rewrite lookup_insert_eq. intros [= <-].
      split; [apply elem_of_app; right; apply list_elem_of_here|].
        split; [done|]. split; [done|].
      intros other [Ho | Heq%list_elem_of_singleton]%elem_of_app Hnt' Hn';
        [|subst other; apply Qle_refl].
      exfalso. destruct (covers_aux data other Ho Hnt') as [x Hx].
      congruence.
    + rewrite lookup_insert_ne by done. intros Hc. apply Hold; auto.
Qed.

(** The entry of the cache under a name is a card of the uploaded file that
    is no token, has that name in lower case, and has the greatest [cmc]
    ([card.cmc || 0]) of all such cards of the file. *)
Theorem lookupMap_entry (data : list scryfallCard) (n : string)
    (card : scryfallCard) :
  buildLookupMap data !! n = Some card →
  card ∈ data ∧ isToken card = false ∧ toLowerCase (name card) = n
  ∧ ∀ other, other ∈ data → isToken other = false →
             toLowerCase (name other) = n →
             (cmcOf other <= cmcOf card)%Q.
Proof. apply entry_aux. Qed.

(** No card of the uploaded file that is not a token is lost: its lower-case
    name is a key of the cache, and the card kept there is no token and has
    at least its [cmc]. *)
Theorem lookupMap_covers (data : list scryfallCard) (card : scryfallCard) :
  card ∈ data → isToken card = false →
  ∃ kept, buildLookupMap data !! toLowerCase (name card) = Some kept
          ∧ kept ∈ data ∧ isToken kept = false
          ∧ (cmcOf card <= cmcOf kept)%Q.
Proof.
  intros Hin Hnt. destruct (covers_aux data card Hin Hnt) as [kept Hk].
  exists kept. split; [done|].
  destruct (entry_aux _ _ _ Hk) as (Hkin & Hknt & _ & Hmax).
  split; [done|]. split; [done|]. by apply Hmax.
Qed.

End Lower.

Lemma lookupMap_entry_witness :
  CardLookup.buildLookupMap CardSamples.asciiLower CardSamples.cards
    !! "fire // ice" = Some CardSamples.fireIce
  ∧ (CardSamples.fireIce ∈ CardSamples.cards
     ∧ isToken CardSamples.fireIce = false
     ∧ CardSamples.asciiLower (name CardSamples.fireIce) = "fire // ice"
     ∧ ∀ other, other ∈ CardSamples.cards → isToken other = false →
         CardSamples.asciiLower (name other) = "fire // ice" →
         (cmcOf other <= cmcOf CardSamples.fireIce)%Q).
Proof.
  split; [reflexivity|].
  apply (lookupMap_entry CardSamples.asciiLower CardSamples.cards).
  reflexivity.
Defined.

Lemma lookupMap_covers_witness :
  CardSamples.fireHalf ∈ CardSamples.cards
  ∧ isToken CardSamples.fireHalf = false
  ∧ ∃ kept,
      CardLookup.buildLookupMap CardSamples.asciiLower CardSamples.cards
        !! CardSamples.asciiLower (name CardSamples.fireHalf) = Some kept
      ∧ kept ∈ CardSamples.cards ∧ isToken kept = false
      ∧ (cmcOf CardSamples.fireHalf <= cmcOf kept)%Q.
Proof.
  assert (CardSamples.fireHalf ∈ CardSamples.cards) as Hin
    by apply list_elem_of_here.
  split; [exact Hin|]. split; [reflexivity|].
  apply (lookupMap_covers CardSamples.asciiLower CardSamples.cards
           CardSamples.fireHalf Hin).
  reflexivity.
Defined.

End CardLookupFacts.

(** ** Further properties of [prepareChartData] *)

Module ChartEdge.
Import ChartData.

Lemma foldl_columns_dom (label : string -> string) (i : nat)
    (l : list (string * list num)) (row : keyCardRow) :
  (∀ p, p ∈ l → label (fst p) ≠ "__proto__") →
  dom (foldl (fun row p => assign (label (fst p))
                                  (safeToFixed (mjoin (snd p !! i)) 1) row)
             row l)
  = dom row ∪ list_to_set (label <$> l.*1).
Proof.
  revert row. induction l as [|p l IH]; intros row Hl;
    cbn [foldl fmap list_fmap].
  - cbn. by rewrite (right_id_L ∅ (∪)).
  - rewrite IH by (intros q Hq; by apply Hl, list_elem_of_further).
    unfold assign.
    rewrite decide_False by apply Hl, list_elem_of_here.
    rewrite dom_insert_L. cbn [list_to_set fst].
    by rewrite (comm_L (∪) {[label p.1]} (dom row)), (assoc_L (∪)).
Qed.

(** No burst column is called "__proto__": its label ends in a bracket. *)
Lemma burstLabel_not_proto name : burstLabel name ≠ "__proto__".
Proof.
  unfold burstLabel. intros Heq.
  assert (String.length name = 0%nat) as Hlen.
  { apply (f_equal String.length) in Heq.
    rewrite ChartFacts.string_length_app in Heq. cbn in Heq. lia. }
  destruct name; [discriminate | discriminate].
Qed.

Lemma addColumns_dom (label : string -> string) (o : gmap string (list num))
    (i : nat) (row : keyCardRow) :
  (∀ name, is_Some (o !! name) → label name ≠ "__proto__") →
  dom (addColumns label o i row) = dom row ∪ set_map label (dom o).
Proof.
  intros Hl. unfold addColumns. rewrite foldl_columns_dom.
  2: { intros [name arr] Hp. apply Hl. apply elem_of_map_to_list in Hp.
       by exists arr. }
  f_equal.
  apply set_eq. intros k.
  rewrite elem_of_list_to_set, list_elem_of_fmap, elem_of_map.
  split; intros (x & -> & Hx); exists x; (split; [done|]).
  - apply elem_of_dom. apply list_elem_of_fmap in Hx as ([k v] & -> & Hkv).
    apply elem_of_map_to_list in Hkv. by exists v.
  - apply elem_of_dom in Hx as [v Hv]. apply list_elem_of_fmap.
    exists (x, v). split; [done|]. by apply elem_of_map_to_list.
Qed.

(** The keys of a row of [keyCardsData] are ["turn"], the names of the
    tracked key cards, and, only when [hasBurstCards] is set, the names of
    the cards of [keyCardPlayabilityBurst] with [" (+burst)"] appended;
    the row has no other key, whatever the turn.  (No key card is called
    ["__proto__"]: an assignment to that name adds no key to an object.) *)
Theorem keyCardRow_keys (r : results) (i : nat) :
  ("__proto__" ∉ dom (default ∅ (keyCardPlayability r))) →
  dom (keyCardRowAt r i)
  = {["turn"]} ∪ dom (default ∅ (keyCardPlayability r))
    ∪ (if hasBurstCards r
       then set_map burstLabel (dom (default ∅ (keyCardPlayabilityBurst r)))
       else ∅).
Proof.
  intros Hproto. unfold keyCardRowAt.
  assert (dom (match keyCardPlayability r with
               | Some o =>
                   addColumns id o i {["turn" := inject_Z (Z.of_nat (i + 1))]}
               | None => {["turn" := inject_Z (Z.of_nat (i + 1))]}
               end : keyCardRow)
          = {["turn"]} ∪ dom (default ∅ (keyCardPlayability r))) as H1.
  { destruct (keyCardPlayability r) as [o|]; cbn [default].
    - rewrite addColumns_dom, dom_singleton_L.
      2: { intros name Hname Heq. unfold id in Heq. subst name.
           apply Hproto. by apply elem_of_dom. }
      f_equal.
      apply set_eq. intros k. rewrite elem_of_map. split.
      + by intros (y & -> & Hy).
      + intros Hk. by exists k.
    - by rewrite dom_singleton_L, dom_empty_L, (right_id_L ∅ (∪)). }
  destruct (hasBurstCards r); [|by rewrite H1, (right_id_L ∅ (∪))].
  destruct (keyCardPlayabilityBurst r) as [o|]; cbn [default].
  - rewrite addColumns_dom, H1; [done|].
    intros name _. apply burstLabel_not_proto.
  - by rewrite H1, dom_empty_L, set_map_empty, (right_id_L ∅ (∪)).
Qed.

Lemma keyCardRow_keys_witness :
  ("__proto__" ∉ dom (default ∅ (keyCardPlayability Demo.sim)))
  ∧ dom (keyCardRowAt Demo.sim 1)
    = {["turn"]} ∪ dom (default ∅ (keyCardPlayability Demo.sim))
      ∪ (if hasBurstCards Demo.sim
         then set_map burstLabel
                (dom (default ∅ (keyCardPlayabilityBurst Demo.sim)))
         else ∅).
Proof.
  assert ("__proto__" ∉ dom (default ∅ (keyCardPlayability Demo.sim)))
    as Hk by (apply not_elem_of_dom; reflexivity).
  split; [exact Hk|]. exact (keyCardRow_keys Demo.sim 1 Hk).
Defined.

End ChartEdge.

(** ** components/RitualsPanel.jsx: the override controls *)

Module RitualsFacts.
Import Rituals.

Section Lower.
Variable toLowerCase : string -> string.

Abbreviation after := (after toLowerCase).
Abbreviation shownMode := (shownMode toLowerCase).

Lemma canonical_cases (r : option raw) :
  canonical r = true →
  r = None ∨ (∃ n, r = Some (Num n))
  ∨ (∃ v, r = Some (Obj (OverrideObj (Some "fixed") (Some v) None None)))
  ∨ (∃ b g, r = Some (Obj (OverrideObj (Some "scaling") None (Some b)
                                       (Some g)))).
Proof.
  destruct r as [[n|[m v b g]]|]; cbn; [eauto | | eauto].
  intros [H|H]%orb_prop; apply bool_decide_eq_true in H; cbn in H.
  - destruct H as (-> & [x ->] & -> & ->). right. right. left. eauto.
  - destruct H as (-> & -> & [x ->] & [y ->]). right. right. right. eauto.
Qed.

(** Each control event leaves the override of the row in one of the shapes
    the panel writes, and leaves the overrides of all other cards alone.
    (Here and below the row's key is no name that objects inherit.) *)
Theorem after_canonical (m m' : overrides) (ritual : ritual) (ev : event) :
  inherited (toLowerCase (name ritual)) = false →
  canonical (m !! toLowerCase (name ritual)) = true →
  after m ritual ev = Some m' →
  canonical (m' !! toLowerCase (name ritual)) = true
  ∧ ∀ k, k ≠ toLowerCase (name ritual) → m' !! k = m !! k.
Proof.
  intros _ Hc%canonical_cases. unfold Rituals.after, onChange.
  assert (∀ o, canonical (Some (Obj o)) = true →
            canonical (<[toLowerCase (name ritual) := Obj o]> m !! toLowerCase (name ritual)) = true
            ∧ ∀ k, k ≠ toLowerCase (name ritual) →
                   <[toLowerCase (name ritual) := Obj o]> m !! k = m !! k) as Hins.
  { intros o Ho. rewrite lookup_insert_eq. split; [done|].
    intros k Hk. by rewrite lookup_insert_ne. }
  assert (canonical (delete (toLowerCase (name ritual)) m !! toLowerCase (name ritual)) = true
          ∧ ∀ k, k ≠ toLowerCase (name ritual) →
                 delete (toLowerCase (name ritual)) m !! k = m !! k) as Hdel.
  { rewrite lookup_delete_eq. split; [done|].
    intros k Hk. by rewrite lookup_delete_ne. }
  destruct ev as [mode|n|n|n].
  - unfold setMode. repeat case_bool_decide; cbn; intros [= <-];
      try done; by apply Hins.
  - unfold Rituals.shownMode. case_bool_decide as Hm; [|done].
    cbn. intros [= <-]. apply Hins.
    destruct Hc as [Hc|[[x Hc]|[[x Hc]|(x & y & Hc)]]];
      cbn in Hc; rewrite Hc in Hm |- *; by cbn in Hm |- *.
  - unfold Rituals.shownMode. case_bool_decide as Hm; [|done].
    cbn. intros [= <-]. apply Hins.
    destruct Hc as [Hc|[[x Hc]|[[x Hc]|(x & y & Hc)]]];
      cbn in Hc; rewrite Hc in Hm |- *; by cbn in Hm |- *.
  - unfold Rituals.shownMode. case_bool_decide as Hm; [|done].
    cbn. intros [= <-]. apply Hins.
    destruct Hc as [Hc|[[x Hc]|[[x Hc]|(x & y & Hc)]]];
      cbn in Hc; rewrite Hc in Hm |- *; by cbn in Hm |- *.
Qed.

(** Switching the mode select between fixed and scaling shows the chosen
    mode and does not change the net gain that is in effect. *)
Theorem mode_switch_keeps_gain (m : overrides) (ritual : ritual)
    (mode : string) :
  inherited (toLowerCase (name ritual)) = false →
  canonical (m !! toLowerCase (name ritual)) = true →
  mode = "fixed" ∨ mode = "scaling" →
  ∃ m', after m ritual (ModeSelected mode) = Some m'
        ∧ shownMode m' ritual = mode
        ∧ effectiveGain ritual (m' !! toLowerCase (name ritual))
          = effectiveGain ritual (m !! toLowerCase (name ritual)).
Proof.
  intros _ Hc%canonical_cases Hmode.
  unfold Rituals.after, onChange, setMode, Rituals.shownMode.
  destruct Hmode as [-> | ->]; cbn; eexists; (split; [reflexivity|]);
    cbn [applyArg]; rewrite lookup_insert_eq; (split; [done|]);
    destruct Hc as [Hc|[[x Hc]|[[x Hc]|(x & y & Hc)]]];
    cbn in Hc; rewrite Hc; reflexivity.
Qed.

(** A number typed into the value input (fixed mode) or the base input
    (scaling mode) is the net gain in effect afterwards. *)
Theorem typed_number_used (m m' : overrides) (ritual : ritual) (n : Z) :
  inherited (toLowerCase (name ritual)) = false →
  after m ritual (ValueTyped n) = Some m'
  ∨ after m ritual (BaseTyped n) = Some m' →
  effectiveGain ritual (m' !! toLowerCase (name ritual)) = n.
Proof.
  unfold Rituals.after, onChange, Rituals.shownMode.
  intros _ [H|H]; case_bool_decide as Hm; try done; cbn in H;
    injection H as <-; rewrite lookup_insert_eq;
    destruct (m !! toLowerCase (name ritual)) as [[x|[[md|] v b g]]|];
    cbn in Hm |- *; try done; subst md; done.
Qed.

End Lower.

Lemma after_canonical_witness :
  inherited (CardSamples.asciiLower (name darkRitual)) = false
  ∧ canonical (sampleOverrides !! CardSamples.asciiLower (name darkRitual))
  = true
  ∧ Rituals.after CardSamples.asciiLower sampleOverrides darkRitual
      (ValueTyped 5)
    = Some (<["dark ritual" :=
                Obj (OverrideObj (Some "fixed") (Some 5%Z) None None)]>
            sampleOverrides)
  ∧ canonical (<["dark ritual" :=
                   Obj (OverrideObj (Some "fixed") (Some 5%Z) None None)]>
               sampleOverrides
               !! CardSamples.asciiLower (name darkRitual)) = true.
Proof.
  split; [reflexivity|]. split; [reflexivity|]. split; [reflexivity|].
  apply (after_canonical CardSamples.asciiLower sampleOverrides _ darkRitual
           (ValueTyped 5)); reflexivity.
Defined.

Lemma mode_switch_keeps_gain_witness :
  inherited (CardSamples.asciiLower (name darkRitual)) = false
  ∧ canonical (sampleOverrides !! CardSamples.asciiLower (name darkRitual))
  = true
  ∧ ∃ m', Rituals.after CardSamples.asciiLower sampleOverrides darkRitual
            (ModeSelected "scaling") = Some m'
          ∧ Rituals.shownMode CardSamples.asciiLower m' darkRitual = "scaling"
          ∧ effectiveGain darkRitual
              (m' !! CardSamples.asciiLower (name darkRitual))
            = effectiveGain darkRitual
                (sampleOverrides
                   !! CardSamples.asciiLower (name darkRitual)).
Proof.
  split; [reflexivity|]. split; [reflexivity|].
  apply (mode_switch_keeps_gain CardSamples.asciiLower sampleOverrides
           darkRitual "scaling");
    [reflexivity | reflexivity | right; reflexivity].
Defined.

Lemma typed_number_used_witness :
  inherited (CardSamples.asciiLower (name darkRitual)) = false
  ∧ Rituals.after CardSamples.asciiLower sampleOverrides darkRitual
    (ValueTyped 5)
  = Some (<["dark ritual" :=
              Obj (OverrideObj (Some "fixed") (Some 5%Z) None None)]>
          sampleOverrides)
  ∧ effectiveGain darkRitual
      (<["dark ritual" :=
           Obj (OverrideObj (Some "fixed") (Some 5%Z) None None)]>
       sampleOverrides !! CardSamples.asciiLower (name darkRitual)) = 5%Z.
Proof.
  split; [reflexivity|]. split; [reflexivity|].
  apply (typed_number_used CardSamples.asciiLower sampleOverrides _
           darkRitual 5); [reflexivity|]. left. reflexivity.
Defined.

End RitualsFacts.
